(** * Q1.15 test-vector generator for the 4x4 systolic array ([sim/gen.py])

    A shallow embedding of [sim/gen.py]: the quantizer [to_q15], the golden
    multiply-accumulate lines of [main], and [main] itself with its
    command-line check, random source and hex dumps.

    NumPy arrays are lists (a 2-d array is a list of rows, a 3-d array a list
    of planes); a fixed-width integer is a [Z] with its wrap-around written
    out; a float64 is a [spec_float] at precision 53 and [emax] 1024. *)

From Stdlib Require Import String Ascii DecimalString.
From Stdlib Require Import ZArith List Bool Lia.
From Stdlib Require Import QArith Qpower Qround Qabs Lqa.
From Stdlib Require Import SpecFloat.
Import ListNotations.

Local Open Scope Z_scope.

(** ** Fixed-width integers *)

Module IntN.

(** [x.astype(intw)]: the two's-complement value of the low [w] bits. *)
Definition wrap (w : Z) (x : Z) : Z :=
  (x + 2 ^ (w - 1)) mod 2 ^ w - 2 ^ (w - 1).

Definition in_range (w : Z) (x : Z) : Prop :=
  - 2 ^ (w - 1) <= x < 2 ^ (w - 1).

Definition in_rangeb (w : Z) (x : Z) : bool :=
  (- 2 ^ (w - 1) <=? x) && (x <? 2 ^ (w - 1)).

End IntN.

(** ** Arrays *)

Definition matrix (T : Type) := list (list T).

(** Shape [(r, c)] of a 2-d array. *)
Definition has_shape {T} (r c : nat) (M : matrix T) : Prop :=
  length M = r /\ Forall (fun row => length row = c) M.

(** Every element of a 2-d array satisfies [P]. *)
Definition all_elems {T} (P : T -> Prop) (M : matrix T) : Prop :=
  Forall (Forall P) M.

(** [M[i, j]] for an integer array. *)
Definition at2 (M : matrix Z) (i j : nat) : Z := nth j (nth i M []) 0.

(** Elementwise binary operation on two rows of the same length. *)
Definition zip_with {X Y W} (f : X -> Y -> W) (xs : list X) (ys : list Y) : list W :=
  map (fun p => f (fst p) (snd p)) (combine xs ys).

(** ** The golden multiply-accumulate model (lines 24-27 of [main]) *)

Module Golden.

Definition Q15_MIN : Z := -32768.
Definition Q15_MAX : Z := 32767.

(** The Q1.15 range, i.e. the int16 range. *)
Definition q15 (v : Z) : Prop := Q15_MIN <= v <= Q15_MAX.

Definition astype_int32 (M : matrix Z) : matrix Z := map (map (IntN.wrap 32)) M.
Definition astype_int64 (M : matrix Z) : matrix Z := map (map (IntN.wrap 64)) M.
Definition astype_int16 (M : matrix Z) : matrix Z := map (map (IntN.wrap 16)) M.

(** [A32[..., None] * B32[None, ...]]: shapes (N,4,1) and (1,4,N) broadcast
    to (N,4,N), with [prod[i,k,j] = A32[i,k] * B32[k,j]] as an int32
    product. *)
Definition broadcast_mul (A32 B32 : matrix Z) : list (matrix Z) :=
  map (fun Arow =>
         zip_with (fun a Brow => map (fun b => IntN.wrap 32 (a * b)) Brow)
                  Arow B32)
      A32.

(** Width of the accumulator of [ndarray.sum] on an int32 array: NumPy
    accumulates in its default integer, 64 bits on 64-bit Linux and macOS and,
    from NumPy 2, on every 64-bit platform. *)
Definition ACC_BITS : Z := 64.

Definition add_rows (w : Z) (acc row : list Z) : list Z :=
  zip_with (fun s p => IntN.wrap w (s + p)) acc row.

(** [P.sum(axis=1)] for [P] of shape (N,4,n): the planes' rows are added up
    elementwise, starting from zeros, in a [w]-bit accumulator. *)
Definition sum_axis1 (w : Z) (n : nat) (P : list (matrix Z)) : matrix Z :=
  map (fun plane => fold_left (add_rows w) plane (repeat 0 n)) P.

(** [np.right_shift(sum40 + (1<<14), 15)] on int64. *)
Definition round_shift (S : matrix Z) : matrix Z :=
  map (map (fun s => Z.shiftr (IntN.wrap 64 (s + Z.shiftl 1 14)) 15)) S.

(** [np.clip(y, lo, hi)], i.e. [minimum(maximum(y, lo), hi)]. *)
Definition clip (lo hi : Z) (Y : matrix Z) : matrix Z :=
  map (map (fun y => Z.min (Z.max y lo) hi)) Y.

(** Number of columns of [B_q] (the [N] of its shape (4,N)). *)
Definition ncols (M : matrix Z) : nat :=
  match M with
  | [] => 0%nat
  | row :: _ => length row
  end.

(** Lines 24-27: [C_q] from [A_q] and [B_q]. *)
Definition golden (A_q B_q : matrix Z) : matrix Z :=
  let prod := broadcast_mul (astype_int32 A_q) (astype_int32 B_q) in
  let sum40 := astype_int64 (sum_axis1 ACC_BITS (ncols B_q) prod) in
  let y := round_shift sum40 in
  astype_int16 (clip (-32768) 32767 y).

(** *** The rule in the specification's words *)

(** Exact sum of the products over the reduction index. *)
Definition dot (Arow Bcol : list Z) : Z :=
  fold_left Z.add (zip_with Z.mul Arow Bcol) 0.

(** Column [j] of a matrix. *)
Definition column (B : matrix Z) (j : nat) : list Z :=
  map (fun row => nth j row 0) B.

Definition saturate (v : Z) : Z :=
  if v <? Q15_MIN then Q15_MIN else if Q15_MAX <? v then Q15_MAX else v.

(** Sum of four products, plus [2^14], shifted right by 15, saturated: all
    in unbounded integers. *)
Definition mac_round_sat (Arow Bcol : list Z) : Z :=
  saturate (Z.shiftr (dot Arow Bcol + 2 ^ 14) 15).

(** The same rule on the arrays: element (i, j) from the four products
    [A[i,k] * B[k,j]]. *)
Definition mac4 (A B : matrix Z) (i j : nat) : Z :=
  at2 A i 0 * at2 B 0 j + at2 A i 1 * at2 B 1 j
  + at2 A i 2 * at2 B 2 j + at2 A i 3 * at2 B 3 j.

(** The running sums of a list, from the first element on. *)
Fixpoint running_sums (acc : Z) (ps : list Z) : list Z :=
  match ps with
  | [] => []
  | p :: ps' => (acc + p) :: running_sums (acc + p) ps'
  end.

(** No intermediate value of the pipeline leaves its width: the products fit
    32 bits, every running sum and the biased sum fit 40 bits (so 64 as
    well), and the stored value fits 16 bits. *)
Definition no_wrap (Arow Bcol : list Z) : Prop :=
  Forall (IntN.in_range 32) (zip_with Z.mul Arow Bcol)
  /\ Forall (IntN.in_range 40) (running_sums 0 (zip_with Z.mul Arow Bcol))
  /\ IntN.in_range 40 (dot Arow Bcol + 2 ^ 14)
  /\ IntN.in_range 16 (mac_round_sat Arow Bcol).

(** *** One element of [golden], as the array operations compute it *)

Definition golden_elem (Arow Bcol : list Z) : Z :=
  let prods :=
    zip_with (fun a b => IntN.wrap 32 (IntN.wrap 32 a * IntN.wrap 32 b)) Arow Bcol in
  let s := fold_left (fun s p => IntN.wrap ACC_BITS (s + p)) prods 0 in
  let y := Z.shiftr (IntN.wrap 64 (IntN.wrap 64 s + Z.shiftl 1 14)) 15 in
  IntN.wrap 16 (Z.min (Z.max y (-32768)) 32767).

End Golden.

(** ** float64 and the quantizer [to_q15] (lines 4-6) *)

Module Float64.

Definition prec : Z := 53.
Definition emax : Z := 1024.

(** A float64 value; the ones NumPy holds satisfy [valid_binary prec emax]. *)
Definition float64 := spec_float.

Definition valid (x : float64) : bool := valid_binary prec emax x.

Definition is_finite (x : float64) : bool :=
  match x with
  | S754_zero _ | S754_finite _ _ _ => true
  | S754_infinity _ | S754_nan => false
  end.

(** The float64 nearest to an integer (how NumPy turns a Python int operand
    into a float64). *)
Definition of_int (z : Z) : float64 := binary_normalize prec emax z 0 false.

Definition mul (x y : float64) : float64 := SFmul prec emax x y.

(** The integer nearest to [a / d] for [d > 0], ties to the even one: the
    floor [q] when the remainder is below half of [d], [q + 1] when above. *)
Definition half_even_div (a d : Z) : Z :=
  let q := a / d in
  let r := a mod d in
  match 2 * r ?= d with
  | Lt => q
  | Eq => if Z.even q then q else q + 1
  | Gt => q + 1
  end.

(** The nearest integer to [m * 2^e] for [e < 0], ties to the even one. *)
Definition rint_mag (m : positive) (e : Z) : Z :=
  half_even_div (Z.pos m) (2 ^ (- e)).

(** The nearest integer to [m * 2^e], ties to even, for any exponent. *)
Definition round_mag (m : positive) (e : Z) : Z :=
  if 0 <=? e then Z.pos m * 2 ^ e else rint_mag m e.

(** [np.round] on a float64 (decimals = 0) is [rint]: the nearest integral
    float64, ties to even; zeros, infinities and NaN are returned as they are,
    and the sign is kept when the result is zero. *)
Definition np_round (x : float64) : float64 :=
  match x with
  | S754_finite s m e =>
      if 0 <=? e then x
      else binary_normalize prec emax (cond_Zopp s (rint_mag m e)) 0 s
  | _ => x
  end.

(** NumPy's [maximum] and [minimum] as [clip] uses them: a NaN first operand
    is returned, otherwise the comparison picks the operand. *)
Definition np_max (a b : float64) : float64 :=
  match a with
  | S754_nan => a
  | _ => if SFltb b a then a else b
  end.

Definition np_min (a b : float64) : float64 :=
  match a with
  | S754_nan => a
  | _ => if SFltb a b then a else b
  end.

(** [np.clip(x, lo, hi)] on a float64 with Python int bounds. *)
Definition np_clip (x : float64) (lo hi : Z) : float64 :=
  np_min (np_max x (of_int lo)) (of_int hi).

(** Truncation toward zero of a finite float64. *)
Definition trunc (x : float64) : option Z :=
  match x with
  | S754_zero _ => Some 0
  | S754_finite s m e =>
      Some (cond_Zopp s (if 0 <=? e then Z.pos m * 2 ^ e else Z.pos m / 2 ^ (- e)))
  | S754_infinity _ | S754_nan => None
  end.

(** [x.astype(np.int16)] for a float64 [x] is the C conversion: truncation
    toward zero, and no defined result ([None]) for NaN, the infinities and
    values whose truncation is outside int16. *)
Definition astype_int16 (x : float64) : option Z :=
  match trunc x with
  | Some z => if IntN.in_rangeb 16 z then Some z else None
  | None => None
  end.

(** The literal [32768.0]. *)
Definition f32768 : float64 := S754_finite false 4503599627370496 (-37).

(** Sequencing of conversions that may have no defined result. *)
Fixpoint traverse {X Y} (f : X -> option Y) (xs : list X) : option (list Y) :=
  match xs with
  | [] => Some []
  | x :: xs' =>
      match f x, traverse f xs' with
      | Some y, Some ys => Some (y :: ys)
      | _, _ => None
      end
  end.

(** One element of [to_q15]. *)
Definition to_q15_elem (x : float64) : option Z :=
  astype_int16 (np_clip (np_round (mul x f32768)) (-32768) 32767).

(** [to_q15]: [np.clip(np.round(x * 32768.0), -32768, 32767).astype(np.int16)],
    every operation elementwise. *)
Definition to_q15 (x : matrix float64) : option (matrix Z) :=
  let scaled := map (map (fun v => mul v f32768)) x in
  let rounded := map (map np_round) scaled in
  let clipped := map (map (fun v => np_clip v (-32768) 32767)) rounded in
  traverse (traverse astype_int16) clipped.

(** *** The quantizer in the specification's words, over the rationals *)

(** The rational a float64 denotes (0 for the values that denote none). *)
Definition to_Q (x : float64) : Q :=
  match x with
  | S754_finite s m e => (inject_Z (cond_Zopp s (Z.pos m)) * Qpower 2 e)%Q
  | _ => 0%Q
  end.

(** Round to the nearest integer, ties to even. *)
Definition round_half_even (q : Q) : Z :=
  let f := Qfloor q in
  match Qcompare (q - inject_Z f) (1 # 2) with
  | Lt => f
  | Eq => if Z.even f then f else f + 1
  | Gt => f + 1
  end.

(** Scale by 32768, round half to even, clamp to the int16 range. *)
Definition Quantize (x : Q) : Z :=
  Golden.saturate (round_half_even (x * 32768)).

(** A finite float64 that NumPy can hold. *)
Definition finite_value (x : float64) : Prop :=
  valid x = true /\ is_finite x = true.

(** A float64 in the half-open range [-1.0, 1.0). *)
Definition unit_range (x : float64) : Prop :=
  valid x = true /\ is_finite x = true /\ (-1 <= to_Q x)%Q /\ (to_Q x < 1)%Q.

(** Some float64 literals. *)
Definition f_one : float64 := S754_finite false 4503599627370496 (-52).
Definition f_two : float64 := S754_finite false 4503599627370496 (-51).
Definition f_half : float64 := S754_finite false 4503599627370496 (-53).
Definition f_minus_one : float64 := S754_finite true 4503599627370496 (-52).
Definition f_minus_two : float64 := S754_finite true 4503599627370496 (-51).

End Float64.

(** ** The generator run ([main]) *)

Module Gen.

Import Float64.

(** The seedable random source ([np.random.default_rng] and the generator's
    [uniform(-1.0, 1.0, ...)]): [default_rng] may refuse a seed, and one
    draw returns a float64 and the advanced generator. *)
Class RandomSource := {
  rng_state : Type;
  default_rng : Z -> option rng_state;
  draw_uniform : rng_state -> float64 * rng_state
}.

(** The contract of [uniform(-1.0, 1.0)]: every draw is in [-1.0, 1.0). *)
Definition unit_draws (RS : RandomSource) : Prop :=
  forall g, unit_range (fst (draw_uniform g)).

Section Run.

Context {RS : RandomSource}.

Fixpoint draw_row (c : nat) (g : rng_state) : list float64 * rng_state :=
  match c with
  | O => ([], g)
  | S c' =>
      let '(x, g1) := draw_uniform g in
      let '(xs, g2) := draw_row c' g1 in
      (x :: xs, g2)
  end.

(** [rng.uniform(-1.0, 1.0, size=(r, c))]: the array is filled in row-major
    order from successive draws. *)
Fixpoint uniform (r c : nat) (g : rng_state) : matrix float64 * rng_state :=
  match r with
  | O => ([], g)
  | S r' =>
      let '(row, g1) := draw_row c g in
      let '(rest, g2) := uniform r' c g1 in
      (row :: rest, g2)
  end.

(** What the command line holds once argparse has converted the values:
    [None] is an option that was not given. *)
Record cmdline := {
  cl_N : option Z;
  cl_seed : option Z;
  cl_dump_hex : bool;
  cl_outdir : option string
}.

Record namespace := {
  N : Z;
  seed : Z;
  dump_hex : bool;
  outdir : string
}.

Definition N_choices : list Z := [4; 8; 16].

(** [p.parse_args()]: [--N] is required and must be one of the choices;
    otherwise argparse reports the usage error and exits with status 2
    ([None]). *)
Definition parse_args (cl : cmdline) : option namespace :=
  match cl_N cl with
  | None => None
  | Some n =>
      if existsb (Z.eqb n) N_choices then
        Some {| N := n;
                seed := match cl_seed cl with Some s => s | None => 12648430 end;
                dump_hex := cl_dump_hex cl;
                outdir := match cl_outdir cl with Some d => d | None => "." end |}
      else None
  end.

(** Standard output and the files of the file system (path and content). *)
Record world := {
  stdout : list string;
  files : list (string * string)
}.

Definition print (line : string) (w : world) : world :=
  {| stdout := stdout w ++ [line]; files := files w |}.

(** [open(path, "w")], the writes and the close: the file holds exactly
    [content] afterwards. *)
Definition write_file (path content : string) (w : world) : world :=
  {| stdout := stdout w;
     files := (path, content)
                :: filter (fun f => negb (String.eqb (fst f) path)) (files w) |}.


Fixpoint ends_with_slash (s : string) : bool :=
  match s with
  | EmptyString => false
  | String c EmptyString => Ascii.eqb c "/"
  | String _ s' => ends_with_slash s'
  end.

(** [os.path.join(dir, name)] for a relative [name]. *)
Definition path_join (dir name : string) : string :=
  match dir with
  | EmptyString => name
  | _ => if ends_with_slash dir then dir ++ name else dir ++ "/" ++ name
  end.

Definition str_of_Z (z : Z) : string := NilZero.string_of_int (Z.to_int z).

(** [str(M.shape)] of a 2-d array with [r] rows and [c] columns. *)
Definition str_of_shape (r c : nat) : string :=
  "(" ++ str_of_Z (Z.of_nat r) ++ ", " ++ str_of_Z (Z.of_nat c) ++ ")".

(** The line a completed run prints, [f"N={N}  A:{shape}  B:{shape}  C:{shape}"],
    for the shapes (N,4), (4,N) and (N,N). *)
Definition summary (n : Z) : string :=
  "N=" ++ str_of_Z n
  ++ "  A:" ++ str_of_shape (Z.to_nat n) 4
  ++ "  B:" ++ str_of_shape 4 (Z.to_nat n)
  ++ "  C:" ++ str_of_shape (Z.to_nat n) (Z.to_nat n).

Definition hex_digit (d : Z) : ascii :=
  if d <? 10 then ascii_of_nat (48 + Z.to_nat d)
  else ascii_of_nat (87 + Z.to_nat d).

Definition newline : string := String (ascii_of_nat 10) EmptyString.

(** [f"{(v & 0xFFFF):04x}\n"] for an int16 [v]: under NumPy 1.x the
    operand is widened to hold [0xFFFF], so the masked value is the low 16
    bits of [v] as a nonnegative integer, printed as four lowercase
    hexadecimal digits.  (NumPy 2 refuses the Python integer 65535 next to an
    int16 with an OverflowError; that is not modelled.) *)
Definition hex_line (v : Z) : string :=
  let u := Z.land v 65535 in
  String (hex_digit (Z.shiftr u 12))
    (String (hex_digit (Z.land (Z.shiftr u 8) 15))
       (String (hex_digit (Z.land (Z.shiftr u 4) 15))
          (String (hex_digit (Z.land u 15)) newline))).

(** A lowercase hexadecimal digit, [0-9a-f]. *)
Definition is_lower_hex (c : ascii) : bool :=
  let n := nat_of_ascii c in
  ((48 <=? n)%nat && (n <=? 57)%nat) || ((97 <=? n)%nat && (n <=? 102)%nat).

(** The value of a lowercase hexadecimal digit, and of the four digits of a
    line (how a reader of the dump, such as [$readmemh], takes it). *)
Definition unhex_digit (c : ascii) : Z :=
  let n := Z.of_nat (nat_of_ascii c) in
  if n <? 58 then n - 48 else n - 87.

Definition unhex_line (s : string) : option Z :=
  match s with
  | String a (String b (String c (String d _))) =>
      Some (((unhex_digit a * 16 + unhex_digit b) * 16 + unhex_digit c) * 16
            + unhex_digit d)
  | _ => None
  end.

(** The two nested [for] loops of a dump: [M[i, j]] for [i] in [range(r)]
    and [j] in [range(c)], one line each. *)
Definition hex_dump (M : matrix Z) (r c : nat) : string :=
  String.concat ""
    (flat_map (fun i => map (fun j => hex_line (at2 M i j)) (seq 0 c)) (seq 0 r)).

(** The three arrays of a run. *)
Record vectors := {
  A_q : matrix Z;
  B_q : matrix Z;
  C_q : matrix Z
}.

Inductive outcome :=
| Usage_error          (* argparse rejected the command line *)
| Seed_error           (* [default_rng] refused the seed *)
| Cast_undefined       (* a float64 without a defined int16 conversion *)
| Done (v : vectors).

Definition dump_all (args : namespace) (v : vectors) (w : world) : world :=
  let n := Z.to_nat (N args) in
  let sN := str_of_Z (N args) in
  let w1 := write_file (path_join (outdir args) ("A_" ++ sN ++ ".hex"))
                       (hex_dump (A_q v) n 4) w in
  let w2 := write_file (path_join (outdir args) ("B_" ++ sN ++ ".hex"))
                       (hex_dump (B_q v) 4 n) w1 in
  write_file (path_join (outdir args) ("C_" ++ sN ++ "_gold.hex"))
             (hex_dump (C_q v) n n) w2.

(** [main]: the outcome and the world it leaves.  The operating system's own
    failures (a directory that cannot be created, a file that cannot be
    opened) are not modelled. *)
Definition main (cl : cmdline) (w : world) : outcome * world :=
  match parse_args cl with
  | None => (Usage_error, w)
  | Some args =>
      match default_rng (seed args) with
      | None => (Seed_error, w)
      | Some rng =>
          let n := Z.to_nat (N args) in
          let '(A, rng1) := uniform n 4 rng in
          let '(B, _) := uniform 4 n rng1 in
          match to_q15 A, to_q15 B with
          | Some Aq, Some Bq =>
              let Cq := Golden.golden Aq Bq in
              let v := {| A_q := Aq; B_q := Bq; C_q := Cq |} in
              let w1 :=
                print ("N=" ++ str_of_Z (N args)
                       ++ "  A:" ++ str_of_shape n 4
                       ++ "  B:" ++ str_of_shape 4 n
                       ++ "  C:" ++ str_of_shape n n) w in
              (Done v, if dump_hex args then dump_all args v w1 else w1)
          | _, _ => (Cast_undefined, w)
          end
      end
  end.

End Run.

(** A small linear congruential source, to run [main] on: the state is a
    64-bit word, a negative seed is refused (as NumPy does), and a draw is
    [+-(2^52 + k) * 2^-53] with [k] and the sign taken from the state. *)
Definition lcg_next (g : Z) : Z :=
  (g * 6364136223846793005 + 1442695040888963407) mod 2 ^ 64.

Definition lcg_draw (g : Z) : float64 * Z :=
  let g' := lcg_next g in
  (S754_finite (Z.testbit g' 63) (Z.to_pos (2 ^ 52 + (g' / 2 ^ 11) mod 2 ^ 52)) (-53), g').

Definition lcg_source : RandomSource :=
  {| rng_state := Z;
     default_rng := fun s => if s <? 0 then None else Some (s mod 2 ^ 64);
     draw_uniform := lcg_draw |}.

Definition empty_world : world := {| stdout := []; files := [] |}.

End Gen.

(** ** Sample inputs *)

Module Samples.

Import Float64 Gen.

Definition A2 : matrix Z := [[32767; 32767; 32767; 32767]; [-32768; 100; 0; 5]].
Definition B2 : matrix Z := [[32767; -7]; [32767; 12]; [32767; 0]; [32767; 1]].
Definition A2' : matrix Z := [[32767; 32767; 32767; 32767]; [1; 2; 3; 4]].
Definition B2' : matrix Z := [[32767; 9]; [32767; 9]; [32767; 9]; [32767; 9]].

Definition A1 : matrix Z := [[-32768; -32768; -32768; -32768]].
Definition B1 : matrix Z := [[32767]; [32767]; [32767]; [32767]].

Definition X2 : matrix float64 := [[f_one; f_half]; [f_minus_two; S754_zero true]].

Definition cl4 : cmdline :=
  {| cl_N := Some 4; cl_seed := Some 7; cl_dump_hex := true;
     cl_outdir := Some "out"%string |}.

Definition cl4' : cmdline :=
  {| cl_N := Some 4; cl_seed := Some 7; cl_dump_hex := false;
     cl_outdir := None |}.

Definition cl5 : cmdline :=
  {| cl_N := Some 5; cl_seed := None; cl_dump_hex := true; cl_outdir := None |}.

End Samples.

Example golden_small :
  Golden.golden [[32767; 0; 0; 0]] [[16384]; [0]; [0]; [0]] = [[16384]].
Proof. reflexivity. Qed.

Example golden_verylarge :
  Golden.golden [[32767; 32767; 32767; 32767]; [-32768; -32768; -32768; -32768]]
                [[32767; -32768]; [32767; -32768]; [32767; -32768]; [32767; -32768]]
  = [[32767; -32768]; [-32768; 32767]].
Proof. reflexivity. Qed.

(** * Properties *)

(** ** Fixed-width integers *)

Lemma in_rangeb_spec w x : IntN.in_rangeb w x = true <-> IntN.in_range w x.
Proof.
  unfold IntN.in_rangeb, IntN.in_range.
  rewrite andb_true_iff, Z.leb_le, Z.ltb_lt. tauto.
Qed.

Lemma wrap_id w x : 0 < w -> IntN.in_range w x -> IntN.wrap w x = x.
Proof.
  unfold IntN.wrap, IntN.in_range. intros Hw Hx.
  replace (2 ^ w) with (2 * 2 ^ (w - 1)).
  - rewrite Z.mod_small; lia.
  - replace w with (Z.succ (w - 1)) at 2 by lia.
    rewrite Z.pow_succ_r; lia.
Qed.

Lemma wrap_range w x : 0 < w -> IntN.in_range w (IntN.wrap w x).
Proof.
  unfold IntN.wrap, IntN.in_range. intros Hw.
  assert (H2 : 2 ^ w = 2 * 2 ^ (w - 1)).
  { replace w with (Z.succ (w - 1)) at 1 by lia.
    rewrite Z.pow_succ_r; lia. }
  assert (Hp : 0 < 2 ^ (w - 1)) by (apply Z.pow_pos_nonneg; lia).
  pose proof (Z.mod_pos_bound (x + 2 ^ (w - 1)) (2 ^ w)) as Hm.
  lia.
Qed.

(** ** Lists and arrays *)

Section ListFacts.

Context {X Y W : Type}.

Lemma zip_with_length (f : X -> Y -> W) xs ys :
  length xs = length ys -> length (zip_with f xs ys) = length xs.
Proof.
  intros H. unfold zip_with.
  rewrite length_map, length_combine. lia.
Qed.

Lemma zip_with_cons (f : X -> Y -> W) x xs y ys :
  zip_with f (x :: xs) (y :: ys) = f x y :: zip_with f xs ys.
Proof. reflexivity. Qed.

Lemma zip_with_nth (f : X -> Y -> W) xs ys k dx dy dw :
  (k < length xs)%nat -> length xs = length ys ->
  nth k (zip_with f xs ys) dw = f (nth k xs dx) (nth k ys dy).
Proof.
  revert ys k. induction xs as [|x xs IH]; intros [|y ys] k Hk Hl;
    simpl in *; try lia.
  destruct k as [|k]; [reflexivity|].
  change (nth k (zip_with f xs ys) dw = f (nth k xs dx) (nth k ys dy)).
  apply IH; lia.
Qed.

Lemma nth_map_in (f : X -> Y) xs k dx dy :
  (k < length xs)%nat -> nth k (map f xs) dy = f (nth k xs dx).
Proof.
  intros Hk. rewrite (nth_indep _ dy (f dx)) by (rewrite length_map; exact Hk).
  apply map_nth.
Qed.

End ListFacts.

Lemma has_shape_row {T} r c (M : matrix T) i :
  has_shape r c M -> (i < r)%nat -> length (nth i M []) = c.
Proof.
  intros [Hl Hr] Hi. rewrite Forall_forall in Hr.
  apply Hr, nth_In. lia.
Qed.

Lemma all_elems_row {T} (P : T -> Prop) (M : matrix T) i :
  all_elems P M -> Forall P (nth i M []).
Proof.
  intros H. destruct (Nat.lt_ge_cases i (length M)) as [Hi|Hi].
  - unfold all_elems in H. rewrite Forall_forall in H. apply H, nth_In, Hi.
  - rewrite nth_overflow by exact Hi. constructor.
Qed.

Lemma all_elems_at2 (P : Z -> Prop) (M : matrix Z) r c i j :
  has_shape r c M -> all_elems P M -> (i < r)%nat -> (j < c)%nat ->
  P (at2 M i j).
Proof.
  intros Hs Ha Hi Hj. unfold at2.
  pose proof (all_elems_row P M i Ha) as Hrow.
  rewrite Forall_forall in Hrow. apply Hrow, nth_In.
  rewrite (has_shape_row r c M i Hs Hi). exact Hj.
Qed.

Lemma has_shape_map {T U} (f : T -> U) r c (M : matrix T) :
  has_shape r c M -> has_shape r c (map (map f) M).
Proof.
  intros [Hl Hr]. split.
  - rewrite length_map. exact Hl.
  - rewrite Forall_map. eapply Forall_impl; [|exact Hr].
    intros row Hrow. simpl. rewrite length_map. exact Hrow.
Qed.

Lemma at2_map (f : Z -> Z) r c (M : matrix Z) i j :
  has_shape r c M -> (i < r)%nat -> (j < c)%nat ->
  at2 (map (map f) M) i j = f (at2 M i j).
Proof.
  intros Hs Hi Hj. unfold at2.
  rewrite (nth_map_in (map f) M i [] []) by (destruct Hs; lia).
  apply nth_map_in. rewrite (has_shape_row r c M i Hs Hi). exact Hj.
Qed.

Lemma column_length (B : matrix Z) j : length (Golden.column B j) = length B.
Proof. unfold Golden.column. apply length_map. Qed.

Lemma column_nth (B : matrix Z) j k :
  nth k (Golden.column B j) 0 = at2 B k j.
Proof.
  unfold Golden.column, at2.
  destruct (Nat.lt_ge_cases k (length B)) as [Hk|Hk].
  - apply (nth_map_in (fun row => nth j row 0) B k []). exact Hk.
  - rewrite (nth_overflow (map _ B)) by (rewrite length_map; exact Hk).
    rewrite (nth_overflow B) by exact Hk.
    destruct j; reflexivity.
Qed.

(** ** The golden model, element by element *)

Section GoldenElementwise.

Import Golden.

Lemma fold_add_rows w n plane : forall acc,
  length acc = n -> Forall (fun row => length row = n) plane ->
  length (fold_left (add_rows w) plane acc) = n
  /\ forall j, (j < n)%nat ->
       nth j (fold_left (add_rows w) plane acc) 0
       = fold_left (fun s row => IntN.wrap w (s + nth j row 0)) plane (nth j acc 0).
Proof.
  induction plane as [|row plane IH]; intros acc Hacc Hrows; simpl.
  - split; [exact Hacc | reflexivity].
  - pose proof (Forall_inv Hrows) as Hrow. simpl in Hrow.
    pose proof (Forall_inv_tail Hrows) as Hrest.
    assert (Hlen : length (add_rows w acc row) = n).
    { unfold add_rows. rewrite zip_with_length; congruence. }
    destruct (IH (add_rows w acc row) Hlen Hrest) as [IHl IHn].
    split; [exact IHl|].
    intros j Hj. rewrite (IHn j Hj). f_equal.
    unfold add_rows.
    apply (zip_with_nth (fun s p => IntN.wrap w (s + p)) acc row j 0 0 0); congruence.
Qed.

Lemma plane_rows n (Arow : list Z) (B : matrix Z) :
  Forall (fun row => length row = n) B ->
  Forall (fun row => length row = n)
         (zip_with (fun a Brow => map (fun b => IntN.wrap 32 (a * b)) Brow) Arow B).
Proof.
  revert B. induction Arow as [|a Arow IH]; intros [|Brow B] HB;
    try (constructor; fail).
  inversion HB; subst. rewrite zip_with_cons. constructor.
  - apply length_map.
  - apply IH. assumption.
Qed.

Lemma fold_plane_column w j (Arow : list Z) : forall (B : matrix Z) acc,
  Forall (fun row => (j < length row)%nat) B ->
  fold_left (fun s row => IntN.wrap w (s + nth j row 0))
            (zip_with (fun a Brow => map (fun b => IntN.wrap 32 (a * b)) Brow)
                      (map (IntN.wrap 32) Arow) (map (map (IntN.wrap 32)) B))
            acc
  = fold_left (fun s p => IntN.wrap w (s + p))
              (zip_with (fun a b => IntN.wrap 32 (IntN.wrap 32 a * IntN.wrap 32 b))
                        Arow (column B j))
              acc.
Proof.
  induction Arow as [|a Arow IH]; intros [|Brow B] acc HB; try reflexivity.
  inversion HB as [|? ? Hj Hrest]; subst.
  simpl map. unfold column. simpl map. rewrite !zip_with_cons. simpl fold_left.
  rewrite (nth_map_in (fun b => IntN.wrap 32 (IntN.wrap 32 a * b))
                      (map (IntN.wrap 32) Brow) j 0 0)
    by (rewrite length_map; exact Hj).
  rewrite (nth_map_in (IntN.wrap 32) Brow j 0 0) by exact Hj.
  apply (IH B _ Hrest).
Qed.

Lemma ncols_shape r n (B : matrix Z) :
  has_shape (S r) n B -> ncols B = n.
Proof.
  intros [Hl Hr]. destruct B as [|row B]; [discriminate|].
  inversion Hr; subst. reflexivity.
Qed.

(** [golden] has shape (n, n), and its element (i, j) is [golden_elem] of
    row [i] of [A_q] and column [j] of [B_q]. *)
Lemma golden_elementwise n (A B : matrix Z) :
  has_shape n 4 A -> has_shape 4 n B ->
  has_shape n n (golden A B)
  /\ forall i j, (i < n)%nat -> (j < n)%nat ->
       at2 (golden A B) i j = golden_elem (nth i A []) (column B j).
Proof.
  intros HA HB. unfold golden.
  rewrite (ncols_shape 3 n B HB).
  set (P := broadcast_mul (astype_int32 A) (astype_int32 B)).
  assert (HB32 : Forall (fun row => length row = n) (astype_int32 B)).
  { apply (has_shape_map (IntN.wrap 32) 4 n B HB). }
  assert (Hsum : has_shape n n (sum_axis1 ACC_BITS n P)).
  { unfold sum_axis1, P, broadcast_mul. split.
    - unfold astype_int32. rewrite !length_map. apply HA.
    - rewrite !Forall_map. apply Forall_forall. intros Arow _.
      apply fold_add_rows; [apply repeat_length | apply plane_rows, HB32]. }
  split.
  - unfold astype_int16, clip, round_shift, astype_int64.
    repeat apply has_shape_map. exact Hsum.
  - intros i j Hi Hj.
    unfold astype_int16, clip, round_shift, astype_int64.
    rewrite (at2_map _ n n), (at2_map _ n n), (at2_map _ n n), (at2_map _ n n);
      try assumption; repeat apply has_shape_map; try exact Hsum.
    unfold golden_elem. do 5 f_equal.
    unfold at2, sum_axis1, P, broadcast_mul, astype_int32.
    rewrite !map_map.
    rewrite (nth_map_in _ A i [] []) by (destruct HA; lia).
    destruct (fold_add_rows ACC_BITS n
                (zip_with (fun a Brow => map (fun b => IntN.wrap 32 (a * b)) Brow)
                          (map (IntN.wrap 32) (nth i A [])) (astype_int32 B))
                (repeat 0 n) (repeat_length _ _) (plane_rows _ _ _ HB32))
      as [_ Hnth].
    unfold astype_int32 in Hnth.
    rewrite (Hnth j Hj).
    rewrite nth_repeat.
    rewrite fold_plane_column; [reflexivity|].
    destruct HB as [_ HB]. eapply Forall_impl; [|exact HB].
    simpl. intros row Hrow. lia.
Qed.

End GoldenElementwise.

(** ** Exactness of the golden arithmetic *)

Section GoldenExact.

Import Golden.

Lemma in_range_bounds w x lo :
  lo = 2 ^ (w - 1) -> - lo <= x < lo -> IntN.in_range w x.
Proof. intros -> H. exact H. Qed.

Lemma wrap_small w x lo :
  0 < w -> lo = 2 ^ (w - 1) -> - lo <= x < lo -> IntN.wrap w x = x.
Proof.
  intros Hw Hlo H. apply wrap_id; [exact Hw|].
  exact (in_range_bounds w x lo Hlo H).
Qed.

Lemma q15_product a b :
  q15 a -> q15 b -> -1073709056 <= a * b <= 1073741824.
Proof. unfold q15, Q15_MIN, Q15_MAX. intros Ha Hb. nia. Qed.

Lemma saturate_min_max y :
  Z.min (Z.max y (-32768)) 32767 = saturate y.
Proof.
  unfold saturate, Q15_MIN, Q15_MAX.
  destruct (Z.ltb_spec y (-32768)); destruct (Z.ltb_spec 32767 y); lia.
Qed.

Lemma saturate_q15 y : q15 (saturate y).
Proof.
  unfold saturate, q15, Q15_MIN, Q15_MAX.
  destruct (Z.ltb_spec y (-32768)); destruct (Z.ltb_spec 32767 y); lia.
Qed.

Lemma length4 {T} (l : list T) :
  length l = 4%nat -> exists a b c d, l = [a; b; c; d].
Proof.
  destruct l as [|a [|b [|c [|d [|e l]]]]]; try discriminate.
  intros _. now exists a, b, c, d.
Qed.

Ltac wrap_away :=
  repeat match goal with
         | |- context [IntN.wrap 16 ?x] =>
             rewrite (wrap_small 16 x 32768) by (try reflexivity; lia)
         | |- context [IntN.wrap 32 ?x] =>
             rewrite (wrap_small 32 x 2147483648) by (try reflexivity; lia)
         | |- context [IntN.wrap 64 ?x] =>
             rewrite (wrap_small 64 x 9223372036854775808) by (try reflexivity; lia)
         end.

(** On Q1.15 rows of length 4 the array arithmetic is the exact rule, and no
    intermediate value wraps. *)
Lemma golden_elem_exact Arow Bcol :
  length Arow = 4%nat -> length Bcol = 4%nat ->
  Forall q15 Arow -> Forall q15 Bcol ->
  golden_elem Arow Bcol = mac_round_sat Arow Bcol /\ no_wrap Arow Bcol.
Proof.
  intros HlA HlB HA HB.
  destruct (length4 Arow HlA) as (a0 & a1 & a2 & a3 & ->).
  destruct (length4 Bcol HlB) as (b0 & b1 & b2 & b3 & ->).
  repeat match goal with
         | H : Forall _ (_ :: _) |- _ => inversion H; subst; clear H
         | H : Forall _ [] |- _ => clear H
         end.
  pose proof (q15_product a0 b0) as P0.
  pose proof (q15_product a1 b1) as P1.
  pose proof (q15_product a2 b2) as P2.
  pose proof (q15_product a3 b3) as P3.
  repeat match goal with
         | H : q15 ?a -> q15 ?b -> _, Ha : q15 ?a, Hb : q15 ?b |- _ =>
             specialize (H Ha Hb)
         end.
  unfold q15, Q15_MIN, Q15_MAX in *.
  split.
  - unfold golden_elem, mac_round_sat, dot, ACC_BITS.
    rewrite !zip_with_cons. unfold zip_with.
    cbn [combine map fold_left fst snd].
    change (Z.shiftl 1 14) with 16384. change (2 ^ 14) with 16384.
    wrap_away.
    rewrite saturate_min_max. reflexivity.
  - unfold no_wrap, mac_round_sat, dot.
    rewrite !zip_with_cons. unfold zip_with.
    cbn [combine map fold_left running_sums fst snd].
    change (2 ^ 14) with 16384.
    pose proof (saturate_q15
                  (Z.shiftr (0 + a0 * b0 + a1 * b1 + a2 * b2 + a3 * b3 + 16384) 15))
      as Hsat.
    unfold q15, Q15_MIN, Q15_MAX in Hsat.
    split; [|split; [|split]].
    + repeat constructor;
        apply (in_range_bounds 32 _ 2147483648); (reflexivity || lia).
    + repeat constructor;
        apply (in_range_bounds 40 _ 549755813888); (reflexivity || lia).
    + apply (in_range_bounds 40 _ 549755813888); (reflexivity || lia).
    + apply (in_range_bounds 16 _ 32768); (reflexivity || lia).
Qed.

End GoldenExact.

(** ** The golden model: the claims *)

Section GoldenClaims.

Import Golden.

Lemma dot_mac4 n (A B : matrix Z) i j :
  has_shape n 4 A -> has_shape 4 n B -> (i < n)%nat ->
  dot (nth i A []) (column B j) = mac4 A B i j.
Proof.
  intros HA HB Hi.
  pose proof (has_shape_row n 4 A i HA Hi) as HlA.
  assert (HlB : length (column B j) = 4%nat)
    by (rewrite column_length; apply HB).
  unfold mac4.
  rewrite <- (column_nth B j 0), <- (column_nth B j 1),
          <- (column_nth B j 2), <- (column_nth B j 3).
  unfold at2.
  destruct (length4 _ HlA) as (a0 & a1 & a2 & a3 & ->).
  destruct (length4 _ HlB) as (b0 & b1 & b2 & b3 & ->).
  unfold dot. rewrite !zip_with_cons. simpl. lia.
Qed.

Lemma column_q15 n (B : matrix Z) j :
  has_shape 4 n B -> all_elems q15 B -> (j < n)%nat -> Forall q15 (column B j).
Proof.
  intros HB Hq Hj. unfold column. rewrite Forall_map.
  destruct HB as [_ Hrows].
  unfold all_elems in Hq. rewrite Forall_forall in *.
  intros row Hin. specialize (Hq row Hin). rewrite Forall_forall in Hq.
  apply Hq, nth_In. rewrite (Hrows row Hin). exact Hj.
Qed.

(** C1: for Q1.15 operands A (n x 4) and B (4 x n), the golden result has
    shape (n, n) and every element C[i][j] is the exact integer sum of the
    four products A[i][k] * B[k][j], plus the bias 2^14, shifted right
    arithmetically by 15 and saturated to [-32768, 32767]; on the way the
    products fit 32 bits, the running sums and the biased sum fit 40 bits, and
    the stored value fits 16 bits, so nothing wraps. *)
Theorem C1_golden_exact (n : nat) (A B : matrix Z) :
  has_shape n 4 A -> has_shape 4 n B ->
  all_elems q15 A -> all_elems q15 B ->
  has_shape n n (golden A B)
  /\ forall i j, (i < n)%nat -> (j < n)%nat ->
       at2 (golden A B) i j = saturate (Z.shiftr (mac4 A B i j + 2 ^ 14) 15)
       /\ no_wrap (nth i A []) (column B j).
Proof.
  intros HA HB HqA HqB.
  destruct (golden_elementwise n A B HA HB) as [Hshape Hat].
  split; [exact Hshape|].
  intros i j Hi Hj.
  destruct (golden_elem_exact (nth i A []) (column B j)) as [He Hnw].
  - exact (has_shape_row n 4 A i HA Hi).
  - rewrite column_length. apply HB.
  - apply all_elems_row, HqA.
  - exact (column_q15 n B j HB HqB Hj).
  - split; [|exact Hnw].
    rewrite (Hat i j Hi Hj), He. unfold mac_round_sat.
    rewrite (dot_mac4 n A B i j HA HB Hi). reflexivity.
Qed.

(** C2: when the biased and shifted sum of the four products of an output
    element exceeds 32767, the golden model stores exactly 32767 there. *)
Theorem C2_golden_saturates_high (n : nat) (A B : matrix Z) (i j : nat) :
  has_shape n 4 A -> has_shape 4 n B ->
  all_elems q15 A -> all_elems q15 B ->
  (i < n)%nat -> (j < n)%nat ->
  32767 < Z.shiftr (mac4 A B i j + 2 ^ 14) 15 ->
  at2 (golden A B) i j = 32767.
Proof.
  intros HA HB HqA HqB Hi Hj Hbig.
  destruct (golden_elementwise n A B HA HB) as [_ Hat].
  destruct (golden_elem_exact (nth i A []) (column B j)) as [He _].
  - exact (has_shape_row n 4 A i HA Hi).
  - rewrite column_length. apply HB.
  - apply all_elems_row, HqA.
  - exact (column_q15 n B j HB HqB Hj).
  - rewrite (Hat i j Hi Hj), He. unfold mac_round_sat.
    rewrite (dot_mac4 n A B i j HA HB Hi).
    unfold saturate, Q15_MIN, Q15_MAX.
    destruct (Z.ltb_spec (Z.shiftr (mac4 A B i j + 2 ^ 14) 15) (-32768)); [lia|].
    destruct (Z.ltb_spec 32767 (Z.shiftr (mac4 A B i j + 2 ^ 14) 15)); lia.
Qed.

(** C5 (as the code computes it): for A = [[32767, 0, 0, 0]] and
    B = [[16384], [0], [0], [0]] the golden model produces C = [[16384]]: the
    one nonzero product is 32767 * 16384 = 536854528, the bias 16384 makes it
    536870912 = 2^29, the shift by 15 gives 16384, which is in range and is
    stored without saturation. *)
Theorem C5_concrete_case :
  golden [[32767; 0; 0; 0]] [[16384]; [0]; [0]; [0]] = [[16384]]
  /\ mac4 [[32767; 0; 0; 0]] [[16384]; [0]; [0]; [0]] 0 0 = 536854528
  /\ Z.shiftr (536854528 + 2 ^ 14) 15 = 16384
  /\ saturate 16384 = 16384.
Proof. repeat split. Qed.

(** C5, as stated, fails: the golden result for that input is not
    [[16368]]. *)
Lemma C5_not_16368 :
  golden [[32767; 0; 0; 0]] [[16384]; [0]; [0]; [0]] <> [[16368]].
Proof. intros H. vm_compute in H. discriminate H. Qed.

(** C10: element (i, j) of the golden result is a function of row i of A and
    column j of B only: two operand pairs that agree there give the same
    C[i][j]. *)
Theorem C10_golden_locality (n n' : nat) (A B A' B' : matrix Z) (i j : nat) :
  has_shape n 4 A -> has_shape 4 n B ->
  has_shape n' 4 A' -> has_shape 4 n' B' ->
  (i < n)%nat -> (j < n)%nat -> (i < n')%nat -> (j < n')%nat ->
  nth i A [] = nth i A' [] ->
  column B j = column B' j ->
  at2 (golden A B) i j = at2 (golden A' B') i j.
Proof.
  intros HA HB HA' HB' Hi Hj Hi' Hj' Hrow Hcol.
  destruct (golden_elementwise n A B HA HB) as [_ Hat].
  destruct (golden_elementwise n' A' B' HA' HB') as [_ Hat'].
  rewrite (Hat i j Hi Hj), (Hat' i j Hi' Hj'), Hrow, Hcol. reflexivity.
Qed.

End GoldenClaims.

(** ** float64: digits, shifts and exact rounding *)

Section FloatFacts.

Import Float64.

Lemma digits2_size p : digits2_pos p = Pos.size p.
Proof. induction p; simpl; congruence. Qed.

(** [digits2_pos p] is the bit length of [p]. *)
Lemma digits2_bounds p :
  2 ^ (Z.pos (digits2_pos p) - 1) <= Z.pos p < 2 ^ Z.pos (digits2_pos p).
Proof.
  rewrite digits2_size. split.
  - pose proof (Pos.size_le p) as H.
    assert (H' : 2 ^ Z.pos (Pos.size p) <= 2 * Z.pos p).
    { rewrite <- Pos2Z.inj_pow. change (2 * Z.pos p) with (Z.pos p~0). exact H. }
    replace (Z.pos (Pos.size p)) with (Z.succ (Z.pos (Pos.size p) - 1)) in H' by lia.
    rewrite Z.pow_succ_r in H' by lia. lia.
  - rewrite <- Pos2Z.inj_pow. exact (Pos.size_gt p).
Qed.

Lemma digits2_unique p d :
  2 ^ (d - 1) <= Z.pos p < 2 ^ d -> Z.pos (digits2_pos p) = d.
Proof.
  intros [Hlo Hhi]. pose proof (digits2_bounds p) as [Dlo Dhi].
  set (k := Z.pos (digits2_pos p)) in *.
  assert (Hk : 0 < k) by (unfold k; lia).
  destruct (Z.lt_trichotomy k d) as [Hlt|[Heq|Hgt]]; [|exact Heq|].
  - assert (2 ^ k <= 2 ^ (d - 1)) by (apply Z.pow_le_mono_r; lia). lia.
  - assert (0 <= d).
    { destruct (Z.le_gt_cases 0 d) as [|Hneg]; [assumption|].
      rewrite (Z.pow_neg_r 2 d) in Hhi by lia. lia. }
    assert (2 ^ d <= 2 ^ (k - 1)) by (apply Z.pow_le_mono_r; lia). lia.
Qed.

Lemma pos_iter_xO p n : Z.pos (Pos.iter xO p n) = Z.pos p * 2 ^ Z.pos n.
Proof.
  rewrite (Pos.iter_swap_gen _ _ Z.pos xO (Z.mul 2)) by reflexivity.
  change (Pos.iter (Z.mul 2) (Z.pos p) n) with (Z.shiftl (Z.pos p) (Z.pos n)).
  apply Z.shiftl_mul_pow2. lia.
Qed.

(** Bit length of [p * 2^k]. *)
Lemma digits2_shift p q k :
  0 <= k -> Z.pos q = Z.pos p * 2 ^ k ->
  Z.pos (digits2_pos q) = Z.pos (digits2_pos p) + k.
Proof.
  intros Hk Hq. apply digits2_unique. rewrite Hq.
  pose proof (digits2_bounds p) as [Dlo Dhi].
  assert (Hp : 0 < 2 ^ k) by (apply Z.pow_pos_nonneg; lia).
  replace (Z.pos (digits2_pos p) + k - 1) with ((Z.pos (digits2_pos p) - 1) + k) by lia.
  rewrite !Z.pow_add_r by lia. nia.
Qed.

(** Shifting out [n] zero bits is exact. *)
Lemma shr_1_even a :
  0 <= a ->
  shr_1 (Build_shr_record (2 * a) false false) = Build_shr_record a false false.
Proof. destruct a as [|p|p]; [reflexivity | reflexivity | lia]. Qed.

Lemma pow2_xO p : 2 ^ Z.pos p~0 = 2 ^ Z.pos p * 2 ^ Z.pos p.
Proof.
  replace (Z.pos p~0) with (Z.pos p + Z.pos p) by lia.
  apply Z.pow_add_r; lia.
Qed.

Lemma pow2_xI p : 2 ^ Z.pos p~1 = 2 * (2 ^ Z.pos p * 2 ^ Z.pos p).
Proof.
  replace (Z.pos p~1) with (Z.succ (Z.pos p + Z.pos p)) by lia.
  rewrite Z.pow_succ_r by lia. rewrite Z.pow_add_r by lia. reflexivity.
Qed.

Lemma iter_shr_exact p : forall a,
  0 <= a ->
  iter_pos shr_1 p (Build_shr_record (a * 2 ^ Z.pos p) false false)
  = Build_shr_record a false false.
Proof.
  induction p as [p IH|p IH|]; intros a Ha; cbn [iter_pos].
  - replace (a * 2 ^ Z.pos p~1) with (2 * ((a * 2 ^ Z.pos p) * 2 ^ Z.pos p))
      by (rewrite pow2_xI; ring).
    rewrite shr_1_even by (apply Z.mul_nonneg_nonneg; [apply Z.mul_nonneg_nonneg|]; lia).
    rewrite IH by (apply Z.mul_nonneg_nonneg; lia). apply IH, Ha.
  - replace (a * 2 ^ Z.pos p~0) with ((a * 2 ^ Z.pos p) * 2 ^ Z.pos p)
      by (rewrite pow2_xO; ring).
    rewrite IH by (apply Z.mul_nonneg_nonneg; lia). apply IH, Ha.
  - change (2 ^ 1) with 2. rewrite Z.mul_comm. apply shr_1_even, Ha.
Qed.

(** Rounding a value that needs no rounding: when the [n] bits to shift
    out of [M = M1 * 2^n] are zeros, [binary_round_aux] returns [M1] at the
    exponent [E + n] (or the infinity past the largest exponent), and that
    mantissa is canonical. *)
Lemma binary_round_aux_exact s (M M1 : positive) (E n : Z) :
  0 <= n ->
  Z.pos M = Z.pos M1 * 2 ^ n ->
  fexp prec emax (Z.pos (digits2_pos M) + E) - E = n ->
  binary_round_aux prec emax s (Z.pos M) E loc_Exact
  = (if E + n <=? emax - prec then S754_finite s M1 (E + n) else S754_infinity s)
  /\ canonical_mantissa prec emax M1 (E + n) = true.
Proof.
  intros Hn HM Hfexp.
  assert (Hd : Z.pos (digits2_pos M) = Z.pos (digits2_pos M1) + n)
    by (apply digits2_shift; assumption).
  assert (Hcan : fexp prec emax (Z.pos (digits2_pos M1) + (E + n)) = E + n).
  { replace (Z.pos (digits2_pos M1) + (E + n))
      with (Z.pos (digits2_pos M) + E) by lia. lia. }
  split.
  - unfold binary_round_aux, shr_fexp.
    cbn [Zdigits2 shr_record_of_loc]. rewrite Hfexp.
    assert (Hfirst : shr (Build_shr_record (Z.pos M) false false) E n
                     = (Build_shr_record (Z.pos M1) false false, E + n)).
    { destruct n as [|p|p]; [| |lia].
      - rewrite Z.pow_0_r, Z.mul_1_r in HM. injection HM as ->.
        rewrite Z.add_0_r. reflexivity.
      - cbn [shr]. rewrite HM, iter_shr_exact by lia. reflexivity. }
    rewrite Hfirst. cbn [shr_m loc_of_shr_record round_nearest_even Zdigits2
                          shr_record_of_loc].
    rewrite Hcan, Z.sub_diag. cbn [shr shr_m]. reflexivity.
  - unfold canonical_mantissa. rewrite Hcan. apply Z.eqb_refl.
Qed.

Lemma bounded_inv m e :
  bounded prec emax m e = true ->
  Z.max (Z.pos (digits2_pos m) + e - 53) (-1074) = e /\ e <= 971.
Proof.
  unfold bounded, canonical_mantissa, fexp, emin, prec, emax.
  rewrite andb_true_iff, Z.eqb_eq, Z.leb_le. intros [H1 H2].
  split; [exact H1 | exact H2].
Qed.

(** [x * 32768.0] is exact: the product of a float64 [+-m * 2^e] is
    [+-(m * 2^k) * 2^(e + 15 - k)] for some [k] (0 when [x] is normal), or the
    infinity of the same sign when the exponent passes the largest one. *)
Lemma mul_32768_exact s m e :
  bounded prec emax m e = true ->
  exists k m',
    0 <= k <= 15
    /\ Z.pos m' = Z.pos m * 2 ^ k
    /\ canonical_mantissa prec emax m' (e + 15 - k) = true
    /\ mul (S754_finite s m e) f32768
       = if e + 15 - k <=? emax - prec then S754_finite s m' (e + 15 - k)
         else S754_infinity s.
Proof.
  intros Hb. destruct (bounded_inv m e Hb) as [Hcan Hmax].
  set (d := Z.pos (digits2_pos m)) in *.
  assert (Hd : 0 < d) by (unfold d; lia).
  set (n := Z.max (d + e - 38) (-1074) - e + 37).
  assert (Hn : 37 <= n <= 52) by lia.
  set (k := 52 - n).
  assert (Hpk : 0 < 2 ^ k) by (apply Z.pow_pos_nonneg; lia).
  exists k, (Z.to_pos (Z.pos m * 2 ^ k)).
  assert (Hm' : Z.pos (Z.to_pos (Z.pos m * 2 ^ k)) = Z.pos m * 2 ^ k)
    by (apply Z2Pos.id; lia).
  assert (HM : Z.pos (m * 4503599627370496)
               = Z.pos (Z.to_pos (Z.pos m * 2 ^ k)) * 2 ^ n).
  { rewrite Hm', <- Z.mul_assoc, <- Z.pow_add_r by lia.
    replace (k + n) with 52 by lia. reflexivity. }
  assert (HdM : Z.pos (digits2_pos (m * 4503599627370496)) = d + 52).
  { apply digits2_shift; [lia | reflexivity]. }
  destruct (binary_round_aux_exact s (m * 4503599627370496)
              (Z.to_pos (Z.pos m * 2 ^ k)) (e + -37) n) as [Heq Hc].
  - lia.
  - exact HM.
  - rewrite HdM. unfold fexp, emin, prec, emax. lia.
  - replace (e + -37 + n) with (e + 15 - k) in * by lia.
    repeat split; try lia; try assumption.
    unfold mul, f32768. cbn [SFmul]. rewrite xorb_false_r. exact Heq.
Qed.

(** *** Clipping and converting an integral float64 *)

Lemma of_int_lo : of_int (-32768) = S754_finite true 4503599627370496 (-37).
Proof. reflexivity. Qed.

Lemma of_int_hi : of_int 32767 = S754_finite false 9006924376834048 (-38).
Proof. reflexivity. Qed.

Lemma saturate_id v : -32768 <= v <= 32767 -> Golden.saturate v = v.
Proof.
  unfold Golden.saturate, Golden.Q15_MIN, Golden.Q15_MAX. intros H.
  destruct (Z.ltb_spec v (-32768)); destruct (Z.ltb_spec 32767 v); lia.
Qed.

Lemma saturate_hi v : 32767 <= v -> Golden.saturate v = 32767.
Proof.
  unfold Golden.saturate, Golden.Q15_MIN, Golden.Q15_MAX. intros H.
  destruct (Z.ltb_spec v (-32768)); destruct (Z.ltb_spec 32767 v); lia.
Qed.

Lemma saturate_lo v : v <= -32768 -> Golden.saturate v = -32768.
Proof.
  unfold Golden.saturate, Golden.Q15_MIN, Golden.Q15_MAX. intros H.
  destruct (Z.ltb_spec v (-32768)); destruct (Z.ltb_spec 32767 v); lia.
Qed.

Lemma astype_int16_exact s m e v :
  e < 0 -> Z.pos m = v * 2 ^ (- e) -> 0 <= v <= 32767 \/ (s = true /\ v = 32768) ->
  astype_int16 (S754_finite s m e) = Some (cond_Zopp s v).
Proof.
  intros He Hm Hv. unfold astype_int16, trunc.
  destruct (Z.leb_spec 0 e) as [|_]; [lia|].
  assert (Hp : 0 < 2 ^ (- e)) by (apply Z.pow_pos_nonneg; lia).
  rewrite Hm, Z.div_mul by lia.
  assert (Hr : IntN.in_rangeb 16 (cond_Zopp s v) = true).
  { apply in_rangeb_spec. apply (in_range_bounds 16 _ 32768); [reflexivity|].
    destruct s; simpl; lia. }
  rewrite Hr. reflexivity.
Qed.

(** Powers of two between which the integer value [v] of a float64 with a
    53-bit mantissa lies, by its exponent. *)
Lemma normal_value_ge m e v c :
  2 ^ 52 <= Z.pos m -> e < 0 -> Z.pos m = v * 2 ^ (- e) -> 0 <= c -> - e <= c ->
  2 ^ (52 - c) <= v.
Proof.
  intros Hm He Hv Hc Hec.
  destruct (Z.le_gt_cases 52 c) as [Hbig|Hsmall].
  - assert (0 < v).
    { assert (0 < 2 ^ (- e)) by (apply Z.pow_pos_nonneg; lia). nia. }
    destruct (Z.eq_dec c 52) as [->|Hne].
    + change (2 ^ (52 - 52)) with 1. lia.
    + rewrite Z.pow_neg_r by lia. lia.
  - assert (H1 : 2 ^ (- e) <= 2 ^ c) by (apply Z.pow_le_mono_r; lia).
    assert (H2 : 2 ^ 52 = 2 ^ (52 - c) * 2 ^ c).
    { rewrite <- Z.pow_add_r by lia. f_equal. lia. }
    assert (0 < 2 ^ c) by (apply Z.pow_pos_nonneg; lia).
    assert (0 < 2 ^ (- e)) by (apply Z.pow_pos_nonneg; lia).
    assert (0 < 2 ^ (52 - c)) by (apply Z.pow_pos_nonneg; lia).
    nia.
Qed.

Lemma normal_value_lt m e v c :
  Z.pos m < 2 ^ 53 -> e < 0 -> Z.pos m = v * 2 ^ (- e) -> c <= - e -> c <= 53 ->
  v < 2 ^ (53 - c).
Proof.
  intros Hm He Hv Hec Hc.
  assert (0 < 2 ^ (- e)) by (apply Z.pow_pos_nonneg; lia).
  destruct (Z.le_gt_cases 0 c) as [Hc0|Hc0].
  - assert (H1 : 2 ^ c <= 2 ^ (- e)) by (apply Z.pow_le_mono_r; lia).
    assert (H2 : 2 ^ 53 = 2 ^ (53 - c) * 2 ^ c).
    { rewrite <- Z.pow_add_r by lia. f_equal. lia. }
    assert (0 < 2 ^ c) by (apply Z.pow_pos_nonneg; lia).
    assert (0 < 2 ^ (53 - c)) by (apply Z.pow_pos_nonneg; lia).
    nia.
  - assert (2 ^ 53 <= 2 ^ (53 - c)) by (apply Z.pow_le_mono_r; lia).
    assert (1 <= 2 ^ (- e)) by lia. nia.
Qed.

Lemma compare_cont_Z a b : Pos.compare_cont Eq a b = (Z.pos a ?= Z.pos b).
Proof. reflexivity. Qed.

(** Clipping to [-32768, 32767] and converting a float64 with a 53-bit
    mantissa that holds the integer [+-v]. *)
Lemma clip_cast_normal s m e v :
  2 ^ 52 <= Z.pos m < 2 ^ 53 -> e < 0 -> Z.pos m = v * 2 ^ (- e) ->
  astype_int16 (np_clip (S754_finite s m e) (-32768) 32767)
  = Some (Golden.saturate (cond_Zopp s v)).
Proof.
  intros [Hlo Hhi] He Hv.
  unfold np_clip. rewrite of_int_lo, of_int_hi.
  change (2 ^ 52) with 4503599627370496 in Hlo.
  destruct s; unfold np_max, SFltb, SFcompare.
  - destruct (Z.compare_spec (-37) e) as [Heq|Hlt|Hgt].
    + assert (H15 : 2 ^ (52 - 37) <= v)
        by (apply (normal_value_ge m e v 37); try assumption; lia).
      change (2 ^ (52 - 37)) with 32768 in H15.
      cbn [cond_Zopp]. rewrite saturate_lo by lia.
      rewrite compare_cont_Z.
      destruct (Z.compare_spec 4503599627370496 (Z.pos m));
        [vm_compute; reflexivity | vm_compute; reflexivity | lia].
    + assert (H15 : 2 ^ (52 - 37) <= v)
        by (apply (normal_value_ge m e v 37); try assumption; lia).
      change (2 ^ (52 - 37)) with 32768 in H15.
      cbn [cond_Zopp]. rewrite saturate_lo by lia. vm_compute. reflexivity.
    + assert (H15 : v < 2 ^ (53 - 38))
        by (apply (normal_value_lt m e v 38); try assumption; lia).
      change (2 ^ (53 - 38)) with 32768 in H15.
      assert (0 <= v).
      { assert (0 < 2 ^ (- e)) by (apply Z.pow_pos_nonneg; lia). nia. }
      cbn [np_min SFltb SFcompare].
      rewrite (astype_int16_exact true m e v) by (try assumption; lia).
      cbn [cond_Zopp]. rewrite saturate_id by lia. reflexivity.
  - cbn [np_min]. unfold SFltb, SFcompare.
    assert (0 <= v).
    { assert (0 < 2 ^ (- e)) by (apply Z.pow_pos_nonneg; lia). nia. }
    destruct (Z.compare_spec e (-38)) as [Heq|Hlt|Hgt].
    + rewrite compare_cont_Z.
      subst e. change (2 ^ (- -38)) with 274877906944 in Hv.
      cbn [cond_Zopp].
      destruct (Z.compare_spec (Z.pos m) 9006924376834048) as [Hc|Hc|Hc].
      * rewrite saturate_hi by lia. vm_compute. reflexivity.
      * rewrite (astype_int16_exact false m (-38) v); [| lia | exact Hv | lia].
        cbn [cond_Zopp]. rewrite saturate_id by lia. reflexivity.
      * rewrite saturate_hi by lia. vm_compute. reflexivity.
    + assert (H14 : v < 2 ^ (53 - 39))
        by (apply (normal_value_lt m e v 39); try assumption; lia).
      change (2 ^ (53 - 39)) with 16384 in H14.
      rewrite (astype_int16_exact false m e v) by (try assumption; lia).
      cbn [cond_Zopp]. rewrite saturate_id by lia. reflexivity.
    + assert (H15 : 2 ^ (52 - 37) <= v)
        by (apply (normal_value_ge m e v 37); try assumption; lia).
      change (2 ^ (52 - 37)) with 32768 in H15.
      cbn [cond_Zopp]. rewrite saturate_hi by lia. vm_compute. reflexivity.
Qed.

(** The float64 of a positive integer below [2^53]: the integer itself,
    with its mantissa shifted up to 53 bits. *)
Lemma binary_round_int s p :
  Z.pos p < 2 ^ 53 ->
  exists mz e,
    binary_round prec emax s p 0 = S754_finite s mz e
    /\ -52 <= e <= 0
    /\ Z.pos mz = Z.pos p * 2 ^ (- e)
    /\ 2 ^ 52 <= Z.pos mz < 2 ^ 53.
Proof.
  intros Hp.
  pose proof (digits2_bounds p) as [Dlo Dhi].
  set (d := Z.pos (digits2_pos p)) in *.
  assert (Hd : 1 <= d <= 53).
  { split; [unfold d; lia|].
    destruct (Z.le_gt_cases d 53) as [|Hgt]; [assumption|].
    assert (2 ^ 53 <= 2 ^ (d - 1)) by (apply Z.pow_le_mono_r; lia). lia. }
  assert (Hfexp : fexp prec emax (d + 0) = d - 53)
    by (unfold fexp, emin, prec, emax; lia).
  assert (Hpow : 2 ^ 53 = 2 ^ d * 2 ^ (53 - d)).
  { rewrite <- Z.pow_add_r by lia. f_equal. lia. }
  assert (Hpow' : 2 ^ 52 = 2 ^ (d - 1) * 2 ^ (53 - d)).
  { rewrite <- Z.pow_add_r by lia. f_equal. lia. }
  assert (Hpp : 0 < 2 ^ (53 - d)) by (apply Z.pow_pos_nonneg; lia).
  unfold binary_round. fold d. rewrite Hfexp. unfold shl_align.
  destruct (d - 53 - 0) as [|q|q] eqn:Hsh; [| lia |].
  - assert (Hd53 : d = 53) by lia.
    destruct (binary_round_aux_exact s p p 0 0) as [Heq _].
    + lia.
    + rewrite Z.pow_0_r. lia.
    + fold d. rewrite Hfexp. lia.
    + exists p, 0. rewrite Heq. cbn.
      repeat split; try lia.
      * rewrite Hd53 in Dlo. exact Dlo.
  - assert (Hq : Z.pos q = 53 - d) by lia.
    assert (Hmz : Z.pos (Pos.iter xO p q) = Z.pos p * 2 ^ (53 - d))
      by (rewrite pos_iter_xO, Hq; reflexivity).
    assert (Hdz : Z.pos (digits2_pos (Pos.iter xO p q)) = d + (53 - d))
      by (apply digits2_shift; [lia | exact Hmz]).
    destruct (binary_round_aux_exact s (Pos.iter xO p q) (Pos.iter xO p q) (d - 53) 0)
      as [Heq _].
    + lia.
    + rewrite Z.pow_0_r. lia.
    + rewrite Hdz. unfold fexp, emin, prec, emax. lia.
    + exists (Pos.iter xO p q), (d - 53). rewrite Heq.
      rewrite Z.add_0_r.
      assert (Hle : (d - 53 <=? emax - prec) = true)
        by (apply Z.leb_le; unfold emax, prec; lia).
      rewrite Hle.
      replace (- (d - 53)) with (53 - d) by lia.
      repeat split; try lia; try exact Hmz; rewrite Hmz; nia.
Qed.

(** The same for a float64 with a 53-bit mantissa and a nonnegative
    exponent: it is at least [2^52] in magnitude and always clipped. *)
Lemma clip_cast_big s m e :
  2 ^ 52 <= Z.pos m -> 0 <= e ->
  astype_int16 (np_clip (S754_finite s m e) (-32768) 32767)
  = Some (Golden.saturate (cond_Zopp s (Z.pos m * 2 ^ e))).
Proof.
  intros Hm He.
  change (2 ^ 52) with 4503599627370496 in Hm.
  assert (Hp : 1 <= 2 ^ e).
  { assert (0 < 2 ^ e) by (apply Z.pow_pos_nonneg; lia). lia. }
  assert (Hv : 4503599627370496 <= Z.pos m * 2 ^ e).
  { assert (Z.pos m * 1 <= Z.pos m * 2 ^ e)
      by (apply Z.mul_le_mono_nonneg_l; lia).
    lia. }
  unfold np_clip. rewrite of_int_lo, of_int_hi.
  destruct s; unfold np_max, SFltb, SFcompare.
  - assert (Hc : (-37 ?= e) = Lt) by (apply Z.compare_lt_iff; lia).
    rewrite Hc. cbn [cond_Zopp]. rewrite saturate_lo by lia. vm_compute. reflexivity.
  - cbn [np_min]. unfold SFltb, SFcompare.
    assert (Hc : (e ?= -38) = Gt) by (apply Z.compare_gt_iff; lia).
    rewrite Hc. cbn [cond_Zopp]. rewrite saturate_hi by lia. vm_compute. reflexivity.
Qed.

Lemma rint_mag_bounds m e :
  e < 0 -> 0 <= rint_mag m e <= Z.pos m / 2 + 1.
Proof.
  intros He. unfold rint_mag, half_even_div.
  assert (Hd : 2 <= 2 ^ (- e)).
  { change 2 with (2 ^ 1) at 1. apply Z.pow_le_mono_r; lia. }
  assert (Hq0 : 0 <= Z.pos m / 2 ^ (- e)) by (apply Z.div_pos; lia).
  assert (Hq1 : Z.pos m / 2 ^ (- e) <= Z.pos m / 2)
    by (apply Z.div_le_compat_l; lia).
  destruct (2 * (Z.pos m mod 2 ^ (- e)) ?= 2 ^ (- e));
    [destruct (Z.even (Z.pos m / 2 ^ (- e)))| |]; lia.
Qed.

(** Rounding, clipping and converting a finite float64 [+-m * 2^e]:
    the saturated nearest integer. *)
Lemma round_clip_cast s m e :
  canonical_mantissa prec emax m e = true ->
  astype_int16 (np_clip (np_round (S754_finite s m e)) (-32768) 32767)
  = Some (Golden.saturate (cond_Zopp s (round_mag m e))).
Proof.
  intros Hcan.
  unfold canonical_mantissa, fexp, emin, prec, emax in Hcan.
  apply Z.eqb_eq in Hcan.
  pose proof (digits2_bounds m) as [Dlo Dhi].
  set (d := Z.pos (digits2_pos m)) in *.
  assert (Hd : 1 <= d <= 53) by (unfold d; lia).
  assert (Hm53 : Z.pos m < 2 ^ 53).
  { assert (2 ^ d <= 2 ^ 53) by (apply Z.pow_le_mono_r; lia). lia. }
  unfold np_round, round_mag.
  destruct (Z.leb_spec 0 e) as [He|He].
  - assert (Hd53 : d = 53) by lia.
    rewrite Hd53 in Dlo. change (2 ^ (53 - 1)) with (2 ^ 52) in Dlo.
    apply clip_cast_big; assumption.
  - pose proof (rint_mag_bounds m e He) as [Hz0 Hz1].
    assert (Hz53 : rint_mag m e < 2 ^ 53).
    { change (2 ^ 53) with 9007199254740992 in *.
      assert (Z.pos m / 2 < 4503599627370496)
        by (apply Z.div_lt_upper_bound; lia).
      lia. }
    destruct (rint_mag m e) as [|p|p] eqn:Hz; [| |lia].
    + destruct s; vm_compute; reflexivity.
    + assert (Hnorm : binary_normalize prec emax (cond_Zopp s (Z.pos p)) 0 s
                      = binary_round prec emax s p 0)
        by (destruct s; reflexivity).
      rewrite Hnorm.
      destruct (binary_round_int s p Hz53) as (mz & ez & Heq & Hez & Hmz & Hmzb).
      rewrite Heq.
      destruct (Z.eq_dec ez 0) as [->|Hne].
      * rewrite clip_cast_big by lia.
        rewrite Hmz. change (2 ^ (- 0)) with 1. change (2 ^ 0) with 1.
        rewrite !Z.mul_1_r. reflexivity.
      * apply clip_cast_normal; [exact Hmzb | lia | exact Hmz].
Qed.

(** The infinities clip to the bounds. *)
Lemma round_clip_cast_inf s :
  astype_int16 (np_clip (np_round (S754_infinity s)) (-32768) 32767)
  = Some (if s then -32768 else 32767).
Proof. destruct s; vm_compute; reflexivity. Qed.

Lemma round_clip_cast_zero s :
  astype_int16 (np_clip (np_round (S754_zero s)) (-32768) 32767) = Some 0.
Proof. destruct s; vm_compute; reflexivity. Qed.

End FloatFacts.

(** ** The quantizer against the rule over the rationals *)

Section QuantizerFacts.

Import Float64.

Lemma round_half_even_comp q1 q2 :
  (q1 == q2)%Q -> round_half_even q1 = round_half_even q2.
Proof.
  intros H. unfold round_half_even.
  rewrite (Qfloor_comp q1 q2 H).
  assert (Hc : Qcompare (q1 - inject_Z (Qfloor q2)) (1 # 2)
               = Qcompare (q2 - inject_Z (Qfloor q2)) (1 # 2)).
  { apply Qcompare_comp; [rewrite H|]; reflexivity. }
  rewrite Hc. reflexivity.
Qed.

(** On a fraction, [round_half_even] is the half-even division. *)
Lemma round_half_even_frac a b :
  round_half_even (a # b) = half_even_div a (Z.pos b).
Proof.
  unfold round_half_even, half_even_div, Qfloor.
  assert (Hc : Qcompare ((a # b) - inject_Z (a / Z.pos b)) (1 # 2)
               = (2 * (a mod Z.pos b) ?= Z.pos b)).
  { unfold Qcompare, Qminus, Qplus, Qopp, inject_Z. cbn [Qnum Qden].
    rewrite Z.mod_eq by lia.
    f_equal; rewrite ?Pos.mul_1_r; lia. }
  rewrite Hc. reflexivity.
Qed.

Lemma half_even_div_exact a d : 0 < d -> half_even_div (a * d) d = a.
Proof.
  intros Hd. unfold half_even_div.
  rewrite Z.mod_mul, Z.div_mul by lia.
  assert (Hc : (2 * 0 ?= d) = Lt) by (apply Z.compare_lt_iff; lia).
  rewrite Hc. reflexivity.
Qed.

Lemma even_pred_opp q : Z.even (- q - 1) = negb (Z.even q).
Proof.
  replace (- q - 1) with (- (Z.succ q)) by lia.
  rewrite Z.even_opp, Z.even_succ, <- Z.negb_even. reflexivity.
Qed.

(** Rounding half to even commutes with negation. *)
Lemma half_even_div_opp a d :
  0 < d -> half_even_div (- a) d = - half_even_div a d.
Proof.
  intros Hd. unfold half_even_div.
  pose proof (Z.div_mod a d ltac:(lia)) as Ha.
  pose proof (Z.mod_pos_bound a d Hd) as Hra.
  pose proof (Z.div_mod (- a) d ltac:(lia)) as Hn.
  pose proof (Z.mod_pos_bound (- a) d Hd) as Hrn.
  set (q := a / d) in *. set (r := a mod d) in *.
  set (q' := - a / d) in *. set (r' := - a mod d) in *.
  assert (Hcases : (r = 0 /\ r' = 0 /\ q' = - q)
                   \/ (0 < r /\ r' = d - r /\ q' = - q - 1)).
  { assert (Hsum : d * (q + q') + (r + r') = 0) by lia.
    assert (Hq : q + q' = 0 \/ q + q' = -1) by nia.
    destruct Hq as [Hq|Hq]; rewrite Hq in Hsum; [left|right]; lia. }
  destruct Hcases as [(Hr & Hr' & Hq')|(Hr & Hr' & Hq')]; rewrite Hr', Hq'.
  - rewrite Hr.
    assert (Hc : (2 * 0 ?= d) = Lt) by (apply Z.compare_lt_iff; lia).
    rewrite Hc. reflexivity.
  - destruct (Z.compare_spec (2 * r) d) as [Heq|Hlt|Hgt].
    + assert (Hc : (2 * (d - r) ?= d) = Eq) by (apply Z.compare_eq_iff; lia).
      rewrite Hc, even_pred_opp.
      destruct (Z.even q); simpl; lia.
    + assert (Hc : (2 * (d - r) ?= d) = Gt) by (apply Z.compare_gt_iff; lia).
      rewrite Hc. lia.
    + assert (Hc : (2 * (d - r) ?= d) = Lt) by (apply Z.compare_lt_iff; lia).
      rewrite Hc. lia.
Qed.

Lemma half_even_div_cond_opp s a d :
  0 < d -> half_even_div (cond_Zopp s a) d = cond_Zopp s (half_even_div a d).
Proof.
  intros Hd. destruct s; simpl; [apply half_even_div_opp, Hd | reflexivity].
Qed.

Lemma cond_Zopp_mul s a b : cond_Zopp s a * b = cond_Zopp s (a * b).
Proof. destruct s; simpl; lia. Qed.

(** The rational of a float64 with a nonnegative exponent is an integer. *)
Lemma to_Q_nonneg s m e :
  0 <= e ->
  (to_Q (S754_finite s m e) == inject_Z (cond_Zopp s (Z.pos m * 2 ^ e)))%Q.
Proof.
  intros He. unfold to_Q.
  rewrite <- cond_Zopp_mul, inject_Z_mult.
  rewrite (Zpower_Qpower 2 e He). reflexivity.
Qed.

(** The rational of a float64 with a negative exponent is a fraction over a
    power of two. *)
Lemma to_Q_neg s m e :
  e < 0 ->
  (to_Q (S754_finite s m e) == cond_Zopp s (Z.pos m) # Z.to_pos (2 ^ (- e)))%Q.
Proof.
  intros He. unfold to_Q.
  assert (Hp : 0 < 2 ^ (- e)) by (apply Z.pow_pos_nonneg; lia).
  rewrite (Qmake_Qdiv (cond_Zopp s (Z.pos m)) (Z.to_pos (2 ^ (- e)))).
  rewrite Z2Pos.id by exact Hp.
  rewrite (Zpower_Qpower 2 (- e)) by lia.
  rewrite (Qpower_opp (inject_Z 2) e).
  unfold Qdiv. rewrite Qinv_involutive. reflexivity.
Qed.

(** Rounding the rational of a float64 half to even gives the integer that
    [np.round] holds. *)
Lemma round_half_even_float s m e :
  round_half_even (to_Q (S754_finite s m e)) = cond_Zopp s (round_mag m e).
Proof.
  unfold round_mag. destruct (Z.leb_spec 0 e) as [He|He].
  - rewrite (round_half_even_comp _ _ (to_Q_nonneg s m e He)).
    change (inject_Z (cond_Zopp s (Z.pos m * 2 ^ e)))
      with (cond_Zopp s (Z.pos m * 2 ^ e) # 1).
    rewrite round_half_even_frac.
    rewrite <- (Z.mul_1_r (cond_Zopp s (Z.pos m * 2 ^ e))) at 1.
    apply half_even_div_exact. lia.
  - assert (Hp : 0 < 2 ^ (- e)) by (apply Z.pow_pos_nonneg; lia).
    rewrite (round_half_even_comp _ _ (to_Q_neg s m e He)).
    rewrite round_half_even_frac, Z2Pos.id by exact Hp.
    unfold rint_mag. apply half_even_div_cond_opp, Hp.
Qed.

End QuantizerFacts.

(** ** The quantizer: element by element *)

Section QuantizerElement.

Import Float64.

Lemma to_Q_scaled s m m' e k :
  0 <= k -> Z.pos m' = Z.pos m * 2 ^ k ->
  (to_Q (S754_finite s m' (e + 15 - k)) == to_Q (S754_finite s m e) * 32768)%Q.
Proof.
  intros Hk Hm'. unfold to_Q.
  rewrite Hm', <- cond_Zopp_mul, inject_Z_mult.
  rewrite (Zpower_Qpower 2 k Hk).
  replace (e + 15 - k) with (e + (15 + - k)) by lia.
  assert (H2 : ~ (inject_Z 2 == 0)%Q) by discriminate.
  change (2%Q) with (inject_Z 2).
  rewrite (Qpower_plus (inject_Z 2) e (15 + - k) H2).
  rewrite (Qpower_plus (inject_Z 2) 15 (- k) H2).
  rewrite Qpower_opp.
  change (inject_Z 2 ^ 15)%Q with (32768%Q).
  assert (Hk0 : ~ (inject_Z 2 ^ k == 0)%Q) by (apply Qpower_not_0; exact H2).
  field. exact Hk0.
Qed.

(** [to_q15] on one finite float64 is the quantizer rule on the rational it
    denotes. *)
Lemma to_q15_elem_spec x :
  valid x = true -> is_finite x = true ->
  to_q15_elem x = Some (Quantize (to_Q x)).
Proof.
  intros Hv Hf. destruct x as [s|s| |s m e]; try discriminate.
  - destruct s; reflexivity.
  - unfold valid, valid_binary in Hv.
    destruct (mul_32768_exact s m e Hv) as (k & m' & Hk & Hm' & Hcan & Hmul).
    unfold to_q15_elem, Quantize. rewrite Hmul.
    rewrite <- (round_half_even_comp _ _ (to_Q_scaled s m m' e k (proj1 Hk) Hm')).
    rewrite round_half_even_float.
    destruct (Z.leb_spec (e + 15 - k) (emax - prec)) as [Hle|Hgt].
    + apply round_clip_cast, Hcan.
    + rewrite round_clip_cast_inf. unfold emax, prec in Hgt.
      unfold round_mag.
      destruct (Z.leb_spec 0 (e + 15 - k)) as [_|]; [|lia].
      assert (Hbig : 2 ^ 15 <= 2 ^ (e + 15 - k)) by (apply Z.pow_le_mono_r; lia).
      change (2 ^ 15) with 32768 in Hbig.
      assert (Hv' : 32768 <= Z.pos m' * 2 ^ (e + 15 - k)) by nia.
      destruct s; cbn [cond_Zopp].
      * rewrite saturate_lo by lia. reflexivity.
      * rewrite saturate_hi by lia. reflexivity.
Qed.

End QuantizerElement.

(** ** The quantizer: the claims *)

Section QuantizerClaims.

Import Float64.

Lemma traverse_map {X Y W} (f : Y -> option W) (g : X -> Y) xs :
  traverse f (map g xs) = traverse (fun x => f (g x)) xs.
Proof.
  induction xs as [|x xs IH]; [reflexivity|].
  simpl. rewrite IH. reflexivity.
Qed.

Lemma traverse_total {X Y} (f : X -> option Y) (h : X -> Y) xs :
  Forall (fun x => f x = Some (h x)) xs -> traverse f xs = Some (map h xs).
Proof.
  induction 1 as [|x xs Hx _ IH]; [reflexivity|].
  simpl. rewrite Hx, IH. reflexivity.
Qed.

Lemma traverse_some {X Y} (f : X -> option Y) xs ys :
  traverse f xs = Some ys -> Forall2 (fun x y => f x = Some y) xs ys.
Proof.
  revert ys. induction xs as [|x xs IH]; intros ys H; simpl in H.
  - injection H as <-. constructor.
  - destruct (f x) as [y|] eqn:Hx; [|discriminate].
    destruct (traverse f xs) as [ys'|]; [|discriminate].
    injection H as <-. constructor; [exact Hx | apply IH; reflexivity].
Qed.

(** [to_q15] applies [to_q15_elem] to every element. *)
Lemma to_q15_traverse (X : matrix float64) :
  to_q15 X = traverse (traverse to_q15_elem) X.
Proof.
  unfold to_q15. rewrite !map_map, traverse_map.
  induction X as [|row X IH]; [reflexivity|].
  simpl. rewrite IH. f_equal.
  rewrite !map_map, traverse_map. reflexivity.
Qed.

(** C4: on a matrix of finite float64 values the quantizer returns, element
    by element and independently, the value [x * 32768] rounded to the
    nearest integer with ties to even and clamped to [-32768, 32767] (a value
    in the int16 range), in a matrix of the same shape. *)
Theorem C4_quantizer_rule (X : matrix float64) :
  all_elems finite_value X ->
  to_q15 X = Some (map (map (fun x => Quantize (to_Q x))) X)
  /\ (forall r c, has_shape r c X ->
        has_shape r c (map (map (fun x => Quantize (to_Q x))) X))
  /\ all_elems Golden.q15 (map (map (fun x => Quantize (to_Q x))) X).
Proof.
  intros HX. split; [|split].
  - rewrite to_q15_traverse. apply traverse_total.
    eapply Forall_impl; [|exact HX].
    intros row Hrow. apply traverse_total.
    eapply Forall_impl; [|exact Hrow].
    intros x [Hv Hf]. apply to_q15_elem_spec; assumption.
  - intros r c Hs. apply has_shape_map, Hs.
  - unfold all_elems. rewrite Forall_map. apply Forall_forall. intros row _.
    rewrite Forall_map. apply Forall_forall. intros x _.
    apply saturate_q15.
Qed.

(** C8: the quantizer maps 1.0, -1.0, 2.0 and -2.0 to 32767, -32768, 32767
    and -32768: values at or beyond the range saturate. *)
Theorem C8_saturation_boundary :
  to_q15_elem f_one = Some 32767
  /\ to_q15_elem f_minus_one = Some (-32768)
  /\ to_q15_elem f_two = Some 32767
  /\ to_q15_elem f_minus_two = Some (-32768)
  /\ to_q15 [[f_one; f_minus_one; f_two; f_minus_two]]
     = Some [[32767; -32768; 32767; -32768]]
  /\ (to_Q f_one == 1 /\ to_Q f_minus_one == -1
      /\ to_Q f_two == 2 /\ to_Q f_minus_two == -2)%Q.
Proof. repeat split; vm_compute; reflexivity. Qed.

End QuantizerClaims.

(** ** The quantization error *)

Section QuantizationError.

Import Float64.

(** [round_half_even q] is within one half of [q]. *)
Lemma round_half_even_near q :
  (inject_Z (round_half_even q) - (1 # 2) <= q
   /\ q <= inject_Z (round_half_even q) + (1 # 2))%Q.
Proof.
  unfold round_half_even.
  pose proof (Qfloor_le q) as Hlo.
  pose proof (Qlt_floor q) as Hhi.
  rewrite inject_Z_plus in Hhi. change (inject_Z 1) with 1%Q in Hhi.
  set (f := Qfloor q) in *.
  destruct (Qcompare_spec (q - inject_Z f) (1 # 2)) as [He|Hl|Hg].
  - destruct (Z.even f).
    + split; lra.
    + rewrite inject_Z_plus. change (inject_Z 1) with 1%Q. split; lra.
  - split; lra.
  - rewrite inject_Z_plus. change (inject_Z 1) with 1%Q. split; lra.
Qed.

(** The quantizer rule is within one step of [x * 32768] on [-1, 1). *)
Lemma Quantize_error (q : Q) :
  (-1 <= q)%Q -> (q < 1)%Q ->
  (Qabs (inject_Z (Quantize q) / 32768 - q) <= 1 / 32768)%Q.
Proof.
  intros Hlo Hhi. unfold Quantize.
  destruct (round_half_even_near (q * 32768)) as [Rlo Rhi].
  set (r := round_half_even (q * 32768)) in *.
  assert (Hr : -32768 <= r <= 32768).
  { split.
    - apply Z.lt_succ_r. rewrite Zlt_Qlt.
      change (inject_Z (-32768)) with (-32768)%Q.
      unfold Z.succ. rewrite inject_Z_plus. change (inject_Z 1) with 1%Q.
      lra.
    - apply Z.lt_succ_r. rewrite Zlt_Qlt.
      unfold Z.succ. rewrite inject_Z_plus.
      change (inject_Z 32768) with 32768%Q. change (inject_Z 1) with 1%Q.
      lra. }
  apply Qabs_Qle_condition.
  unfold Qdiv. change (/ 32768)%Q with (1 # 32768)%Q.
  destruct (Z.eq_dec r 32768) as [Heq|Hne].
  - rewrite Heq in *. change (inject_Z 32768) with 32768%Q in *.
    change (Golden.saturate 32768) with 32767.
    change (inject_Z 32767) with 32767%Q.
    split; lra.
  - rewrite saturate_id by lia. split; lra.
Qed.

(** C9: for every float64 [x] in [-1, 1) the quantizer returns a value [q]
    with [|q / 32768 - x| <= 1 / 32768]. *)
Theorem C9_quantization_error (x : float64) :
  unit_range x ->
  exists q, to_q15_elem x = Some q
            /\ (Qabs (inject_Z q / 32768 - to_Q x) <= 1 / 32768)%Q.
Proof.
  intros (Hv & Hf & Hlo & Hhi).
  exists (Quantize (to_Q x)). split.
  - apply to_q15_elem_spec; assumption.
  - apply Quantize_error; assumption.
Qed.

End QuantizationError.

(** ** The run *)

Section RunFacts.

Import Float64 Gen.

Lemma q15_in_range16 z : IntN.in_range 16 z <-> Golden.q15 z.
Proof.
  unfold IntN.in_range, Golden.q15, Golden.Q15_MIN, Golden.Q15_MAX.
  change (2 ^ (16 - 1)) with 32768. lia.
Qed.

Lemma astype_int16_q15 x z : astype_int16 x = Some z -> Golden.q15 z.
Proof.
  unfold astype_int16. destruct (trunc x) as [t|]; [|discriminate].
  destruct (IntN.in_rangeb 16 t) eqn:Hr; [|discriminate].
  intros H. injection H as <-.
  apply q15_in_range16, in_rangeb_spec, Hr.
Qed.

(** Whatever [to_q15] returns is in the int16 range. *)
Lemma to_q15_range X Y : to_q15 X = Some Y -> all_elems Golden.q15 Y.
Proof.
  rewrite to_q15_traverse. intros H.
  apply traverse_some in H. unfold all_elems.
  induction H as [|row yrow X Y Hrow _ IH]; constructor; [|exact IH].
  apply traverse_some in Hrow.
  induction Hrow as [|x y xs ys Hx _ IHr]; constructor; [|exact IHr].
  unfold to_q15_elem in Hx. exact (astype_int16_q15 _ _ Hx).
Qed.

Lemma traverse_length {X Y} (f : X -> option Y) xs ys :
  traverse f xs = Some ys -> length ys = length xs.
Proof.
  intros H. apply traverse_some in H.
  induction H; simpl; congruence.
Qed.

(** [to_q15] keeps the shape. *)
Lemma to_q15_shape r c X Y :
  has_shape r c X -> to_q15 X = Some Y -> has_shape r c Y.
Proof.
  rewrite to_q15_traverse. intros [Hl Hr] H. split.
  - rewrite (traverse_length _ _ _ H). exact Hl.
  - apply traverse_some in H. clear Hl.
    induction H as [|row yrow X Y Hrow _ IH]; constructor.
    + rewrite (traverse_length _ _ _ Hrow). exact (Forall_inv Hr).
    + apply IH. exact (Forall_inv_tail Hr).
Qed.

(** Whatever the operands, the golden result is in the int16 range. *)
Lemma golden_range A B : all_elems Golden.q15 (Golden.golden A B).
Proof.
  unfold Golden.golden, Golden.astype_int16, all_elems.
  rewrite Forall_map. apply Forall_forall. intros row _.
  rewrite Forall_map. apply Forall_forall. intros y _.
  apply q15_in_range16, wrap_range. lia.
Qed.

Context {RS : RandomSource}.

Lemma draw_row_length c : forall g, length (fst (draw_row c g)) = c.
Proof.
  induction c as [|c IH]; intros g; simpl; [reflexivity|].
  destruct (draw_uniform g) as [x g1].
  specialize (IH g1). destruct (draw_row c g1) as [xs g2].
  simpl in *. congruence.
Qed.

(** [uniform] returns an array of the requested shape. *)
Lemma uniform_shape r c : forall g, has_shape r c (fst (uniform r c g)).
Proof.
  induction r as [|r IH]; intros g; simpl.
  - split; [reflexivity | constructor].
  - pose proof (draw_row_length c g) as Hrow.
    destruct (draw_row c g) as [row g1].
    specialize (IH g1). destruct (uniform r c g1) as [rest g2].
    destruct IH as [Hl Hr]. simpl in Hl, Hr, Hrow. simpl. split.
    + simpl. f_equal. exact Hl.
    + constructor; assumption.
Qed.

(** What a completed run computed. *)
Lemma main_done cl w v w' :
  main cl w = (Done v, w') ->
  exists args rng,
    parse_args cl = Some args
    /\ default_rng (seed args) = Some rng
    /\ to_q15 (fst (uniform (Z.to_nat (N args)) 4 rng)) = Some (A_q v)
    /\ to_q15 (fst (uniform 4 (Z.to_nat (N args))
                            (snd (uniform (Z.to_nat (N args)) 4 rng))))
       = Some (B_q v)
    /\ C_q v = Golden.golden (A_q v) (B_q v).
Proof.
  unfold main. intros H.
  destruct (parse_args cl) as [args|]; [|discriminate].
  destruct (default_rng (seed args)) as [rng|] eqn:Hrng; [|discriminate].
  exists args, rng.
  destruct (uniform (Z.to_nat (N args)) 4 rng) as [A rng1] eqn:HA.
  destruct (uniform 4 (Z.to_nat (N args)) rng1) as [B rng2] eqn:HB.
  destruct (to_q15 A) as [Aq|] eqn:HqA; [|discriminate].
  destruct (to_q15 B) as [Bq|] eqn:HqB; [|discriminate].
  injection H as <- _.
  cbn [fst snd A_q B_q C_q]. rewrite HB. cbn [fst].
  repeat split; assumption.
Qed.

Lemma parse_args_some cl args :
  parse_args cl = Some args ->
  cl_N cl = Some (N args) /\ In (N args) N_choices.
Proof.
  unfold parse_args. destruct (cl_N cl) as [n|]; [|discriminate].
  destruct (existsb (Z.eqb n) N_choices) eqn:Hex; [|discriminate].
  intros H. injection H as <-. simpl. split; [reflexivity|].
  apply existsb_exists in Hex. destruct Hex as (k & Hin & Hk).
  apply Z.eqb_eq in Hk. subst k. exact Hin.
Qed.

End RunFacts.

(** ** The run: the claims *)

Section RunClaims.

Import Float64 Gen.

Context {RS : RandomSource}.

(** C3: every element of the three arrays of a completed run (the quantized
    operands A and B and the golden result C) lies in [-32768, 32767]. *)
Theorem C3_range_invariant (cl : cmdline) (w w' : world) (v : vectors) :
  main cl w = (Done v, w') ->
  all_elems Golden.q15 (A_q v)
  /\ all_elems Golden.q15 (B_q v)
  /\ all_elems Golden.q15 (C_q v).
Proof.
  intros H.
  destruct (main_done cl w v w' H) as (args & rng & _ & _ & HA & HB & HC).
  split; [|split].
  - exact (to_q15_range _ _ HA).
  - exact (to_q15_range _ _ HB).
  - rewrite HC. apply golden_range.
Qed.

(** C6: two runs with the same supported N and the same seed, on the same
    random source, have the same outcome, so the same A, B and C, whatever
    the other options and the state of the world they start in. *)
Theorem C6_determinism (cl1 cl2 : cmdline) (w1 w2 : world) (n : Z) :
  In n N_choices ->
  cl_N cl1 = Some n -> cl_N cl2 = Some n ->
  cl_seed cl1 = cl_seed cl2 ->
  fst (main cl1 w1) = fst (main cl2 w2).
Proof.
  intros Hn H1 H2 Hseed.
  assert (Hex : existsb (Z.eqb n) N_choices = true).
  { apply existsb_exists. exists n. split; [exact Hn | apply Z.eqb_refl]. }
  unfold main, parse_args. rewrite H1, H2, Hex, Hseed.
  cbn [seed N dump_hex outdir].
  destruct (default_rng match cl_seed cl2 with
                        | Some s => s
                        | None => 12648430
                        end) as [rng|]; [|reflexivity].
  destruct (uniform (Z.to_nat n) 4 rng) as [A rng1].
  destruct (uniform 4 (Z.to_nat n) rng1) as [B rng2].
  destruct (to_q15 A) as [Aq|]; [|reflexivity].
  destruct (to_q15 B) as [Bq|]; reflexivity.
Qed.

(** C7: a problem size outside {4, 8, 16} is rejected by the command-line
    check: the run ends with the usage error, computes no array and leaves
    standard output and the files as they were, whatever the seed, the random
    source and the other options. *)
Theorem C7_unsupported_size_rejected (cl : cmdline) (w : world) (n : Z) :
  cl_N cl = Some n -> ~ In n N_choices ->
  main cl w = (Usage_error, w).
Proof.
  intros HN Hn. unfold main, parse_args. rewrite HN.
  destruct (existsb (Z.eqb n) N_choices) eqn:Hex; [|reflexivity].
  exfalso. apply Hn.
  apply existsb_exists in Hex. destruct Hex as (k & Hin & Hk).
  apply Z.eqb_eq in Hk. subst k. exact Hin.
Qed.

End RunClaims.

(** ** The theorems at concrete inputs *)


Section Witnesses.

Import Float64 Gen Samples.

Lemma shape_A2 : has_shape 2 4 A2.
Proof. split; [reflexivity | repeat constructor]. Defined.

Lemma shape_B2 : has_shape 4 2 B2.
Proof. split; [reflexivity | repeat constructor]. Defined.

Lemma shape_A2' : has_shape 2 4 A2'.
Proof. split; [reflexivity | repeat constructor]. Defined.

Lemma shape_B2' : has_shape 4 2 B2'.
Proof. split; [reflexivity | repeat constructor]. Defined.

Lemma q15_A2 : all_elems Golden.q15 A2.
Proof.
  repeat constructor; unfold Golden.Q15_MIN, Golden.Q15_MAX; lia.
Defined.

Lemma q15_B2 : all_elems Golden.q15 B2.
Proof.
  repeat constructor; unfold Golden.Q15_MIN, Golden.Q15_MAX; lia.
Defined.

Lemma C1_golden_exact_witness :
  has_shape 2 2 (Golden.golden A2 B2)
  /\ forall i j, (i < 2)%nat -> (j < 2)%nat ->
       at2 (Golden.golden A2 B2) i j
       = Golden.saturate (Z.shiftr (Golden.mac4 A2 B2 i j + 2 ^ 14) 15)
       /\ Golden.no_wrap (nth i A2 []) (Golden.column B2 j).
Proof.
  apply (C1_golden_exact 2 A2 B2 shape_A2 shape_B2 q15_A2 q15_B2).
Defined.

Lemma C2_golden_saturates_high_witness :
  32767 < Z.shiftr (Golden.mac4 A2 B2 0 0 + 2 ^ 14) 15
  /\ at2 (Golden.golden A2 B2) 0 0 = 32767.
Proof.
  assert (H : 32767 < Z.shiftr (Golden.mac4 A2 B2 0 0 + 2 ^ 14) 15)
    by (vm_compute; reflexivity).
  split; [exact H|].
  apply (C2_golden_saturates_high 2 A2 B2 0 0
           shape_A2 shape_B2 q15_A2 q15_B2); [lia | lia | exact H].
Defined.

Lemma C10_golden_locality_witness :
  A2 <> A2' /\ B2 <> B2'
  /\ at2 (Golden.golden A2 B2) 0 0 = at2 (Golden.golden A2' B2') 0 0.
Proof.
  split; [discriminate | split; [discriminate|]].
  apply (C10_golden_locality 2 2 A2 B2 A2' B2' 0 0
           shape_A2 shape_B2 shape_A2' shape_B2');
    (lia || reflexivity).
Defined.

Lemma C4_quantizer_rule_witness :
  to_q15 X2 = Some [[32767; 16384]; [-32768; 0]].
Proof.
  assert (HX : all_elems finite_value X2)
    by (repeat constructor; reflexivity).
  rewrite (proj1 (C4_quantizer_rule X2 HX)).
  vm_compute. reflexivity.
Defined.

Lemma C9_quantization_error_witness :
  exists q, to_q15_elem f_half = Some q
            /\ (Qabs (inject_Z q / 32768 - to_Q f_half) <= 1 / 32768)%Q.
Proof.
  apply (C9_quantization_error f_half).
  repeat split; vm_compute; (reflexivity || discriminate).
Defined.

Lemma C3_range_invariant_witness :
  exists v w',
    @main lcg_source cl4 empty_world = (Done v, w')
    /\ all_elems Golden.q15 (A_q v)
    /\ all_elems Golden.q15 (B_q v)
    /\ all_elems Golden.q15 (C_q v).
Proof.
  destruct (@main lcg_source cl4 empty_world) as [o w'] eqn:Hrun.
  destruct o as [| | |v]; try (vm_compute in Hrun; discriminate Hrun).
  exists v, w'. split; [reflexivity|].
  exact (@C3_range_invariant lcg_source cl4 empty_world w' v Hrun).
Defined.

Lemma C6_determinism_witness :
  fst (@main lcg_source cl4 empty_world)
  = fst (@main lcg_source cl4' (print "earlier output" empty_world)).
Proof.
  apply (@C6_determinism lcg_source cl4 cl4' _ _ 4);
    [simpl; tauto | reflexivity | reflexivity | reflexivity].
Defined.

Lemma not_in_choices_5 : ~ In 5 N_choices.
Proof. simpl. intros [H|[H|[H|[]]]]; discriminate H. Defined.

Lemma C7_unsupported_size_rejected_witness :
  @main lcg_source cl5 empty_world = (Usage_error, empty_world).
Proof.
  apply (@C7_unsupported_size_rejected lcg_source cl5 empty_world 5);
    [reflexivity | exact not_in_choices_5].
Defined.

End Witnesses.

(** * Further properties *)

(** ** The golden model: rounding, saturation and order *)

Section GoldenMore.

Import Golden.

(** The element formula, for use below. *)
Lemma golden_at n (A B : matrix Z) i j :
  has_shape n 4 A -> has_shape 4 n B ->
  all_elems q15 A -> all_elems q15 B ->
  (i < n)%nat -> (j < n)%nat ->
  at2 (golden A B) i j = saturate (Z.shiftr (mac4 A B i j + 2 ^ 14) 15).
Proof.
  intros HA HB HqA HqB Hi Hj.
  destruct (golden_elementwise n A B HA HB) as [_ Hat].
  destruct (golden_elem_exact (nth i A []) (column B j)) as [He _].
  - exact (has_shape_row n 4 A i HA Hi).
  - rewrite column_length. apply HB.
  - apply all_elems_row, HqA.
  - exact (column_q15 n B j HB HqB Hj).
  - rewrite (Hat i j Hi Hj), He. unfold mac_round_sat.
    rewrite (dot_mac4 n A B i j HA HB Hi). reflexivity.
Qed.

Lemma saturate_mono a b : a <= b -> saturate a <= saturate b.
Proof.
  unfold saturate, Q15_MIN, Q15_MAX. intros H.
  destruct (Z.ltb_spec a (-32768)); destruct (Z.ltb_spec 32767 a);
    destruct (Z.ltb_spec b (-32768)); destruct (Z.ltb_spec 32767 b); lia.
Qed.

Lemma saturate_inside y : -32768 < saturate y < 32767 -> saturate y = y.
Proof.
  unfold saturate, Q15_MIN, Q15_MAX.
  destruct (Z.ltb_spec y (-32768)); destruct (Z.ltb_spec 32767 y); lia.
Qed.

(** The low side of saturation: when the biased and shifted sum of the four
    products is below -32768, the stored element is exactly -32768. *)
Theorem golden_saturates_low (n : nat) (A B : matrix Z) (i j : nat) :
  has_shape n 4 A -> has_shape 4 n B ->
  all_elems q15 A -> all_elems q15 B ->
  (i < n)%nat -> (j < n)%nat ->
  Z.shiftr (mac4 A B i j + 2 ^ 14) 15 < -32768 ->
  at2 (golden A B) i j = -32768.
Proof.
  intros HA HB HqA HqB Hi Hj Hlow.
  rewrite (golden_at n A B i j HA HB HqA HqB Hi Hj).
  apply saturate_lo. lia.
Qed.

(** The rounding is to the nearest with ties upward: an element stored
    strictly inside the range is within half a unit in the last place of the
    exact sum of products, [C * 2^15 - 2^14 <= sum < C * 2^15 + 2^14]. *)
Theorem golden_rounds_half_up (n : nat) (A B : matrix Z) (i j : nat) :
  has_shape n 4 A -> has_shape 4 n B ->
  all_elems q15 A -> all_elems q15 B ->
  (i < n)%nat -> (j < n)%nat ->
  -32768 < at2 (golden A B) i j < 32767 ->
  at2 (golden A B) i j * 2 ^ 15 - 2 ^ 14 <= mac4 A B i j
  /\ mac4 A B i j < at2 (golden A B) i j * 2 ^ 15 + 2 ^ 14.
Proof.
  intros HA HB HqA HqB Hi Hj.
  rewrite (golden_at n A B i j HA HB HqA HqB Hi Hj).
  intros Hin. rewrite (saturate_inside _ Hin).
  rewrite Z.shiftr_div_pow2 by lia.
  change (2 ^ 15) with 32768. change (2 ^ 14) with 16384.
  pose proof (Z.div_mod (mac4 A B i j + 16384) 32768 ltac:(lia)) as Hdm.
  pose proof (Z.mod_pos_bound (mac4 A B i j + 16384) 32768 ltac:(lia)) as Hm.
  lia.
Qed.

(** The stored value is monotone in the exact sum of products: a larger sum
    never gives a smaller element, across operands and positions. *)
Theorem golden_monotone (n n' : nat) (A B A' B' : matrix Z) (i j i' j' : nat) :
  has_shape n 4 A -> has_shape 4 n B ->
  all_elems q15 A -> all_elems q15 B ->
  has_shape n' 4 A' -> has_shape 4 n' B' ->
  all_elems q15 A' -> all_elems q15 B' ->
  (i < n)%nat -> (j < n)%nat -> (i' < n')%nat -> (j' < n')%nat ->
  mac4 A B i j <= mac4 A' B' i' j' ->
  at2 (golden A B) i j <= at2 (golden A' B') i' j'.
Proof.
  intros HA HB HqA HqB HA' HB' HqA' HqB' Hi Hj Hi' Hj' Hle.
  rewrite (golden_at n A B i j HA HB HqA HqB Hi Hj).
  rewrite (golden_at n' A' B' i' j' HA' HB' HqA' HqB' Hi' Hj').
  apply saturate_mono.
  rewrite !Z.shiftr_div_pow2 by lia.
  apply Z.div_le_mono; lia.
Qed.

End GoldenMore.

(** ** The quantizer: edge values, order, symmetry and fixed points *)

Section QuantizerMore.

Import Float64.

Lemma round_half_even_Z z : round_half_even (inject_Z z) = z.
Proof.
  change (inject_Z z) with (z # 1). rewrite round_half_even_frac.
  rewrite <- (Z.mul_1_r z) at 1. apply half_even_div_exact. lia.
Qed.

Lemma round_half_even_mono q1 q2 :
  (q1 <= q2)%Q -> round_half_even q1 <= round_half_even q2.
Proof.
  intros Hle.
  destruct (round_half_even_near q1) as [L1 _].
  destruct (round_half_even_near q2) as [_ U2].
  destruct (Z.le_gt_cases (round_half_even q1) (round_half_even q2))
    as [|Hgt]; [assumption|].
  assert (H1 : round_half_even q2 + 1 <= round_half_even q1) by lia.
  rewrite Zle_Qle, inject_Z_plus in H1. change (inject_Z 1) with 1%Q in H1.
  assert (Heq : (q1 == q2)%Q) by lra.
  rewrite (round_half_even_comp q1 q2 Heq) in Hgt. lia.
Qed.

Lemma round_half_even_opp q : round_half_even (- q) = - round_half_even q.
Proof.
  destruct q as [a b]. change (- (a # b))%Q with (- a # b).
  rewrite !round_half_even_frac. apply half_even_div_opp. lia.
Qed.

Lemma Quantize_comp q1 q2 : (q1 == q2)%Q -> Quantize q1 = Quantize q2.
Proof.
  intros H. unfold Quantize. f_equal.
  apply round_half_even_comp. rewrite H. reflexivity.
Qed.

Lemma Quantize_mono q1 q2 : (q1 <= q2)%Q -> Quantize q1 <= Quantize q2.
Proof.
  intros H. unfold Quantize. apply saturate_mono, round_half_even_mono. lra.
Qed.

Lemma to_Q_opp x : (to_Q (SFopp x) == - to_Q x)%Q.
Proof.
  destruct x as [s|s| |s m e]; try reflexivity.
  unfold SFopp, to_Q.
  replace (cond_Zopp (negb s) (Z.pos m)) with (- cond_Zopp s (Z.pos m))
    by (destruct s; reflexivity).
  rewrite inject_Z_opp. ring.
Qed.

Lemma finite_value_opp x : finite_value x -> finite_value (SFopp x).
Proof. destruct x; intros [Hv Hf]; split; assumption. Qed.

(** [to_q15] is monotone: a larger finite float64 never quantizes to a
    smaller value. *)
Theorem to_q15_monotone (x y : float64) :
  finite_value x -> finite_value y -> (to_Q x <= to_Q y)%Q ->
  exists qx qy,
    to_q15_elem x = Some qx /\ to_q15_elem y = Some qy /\ qx <= qy.
Proof.
  intros [Hvx Hfx] [Hvy Hfy] Hle.
  exists (Quantize (to_Q x)), (Quantize (to_Q y)).
  repeat split; try (apply to_q15_elem_spec; assumption).
  apply Quantize_mono, Hle.
Qed.

(** [to_q15] is odd away from the bounds: when [x] quantizes to a value
    strictly inside the range, [-x] quantizes to its negation (ties go to the
    even integer on both sides of zero). *)
Theorem to_q15_odd (x : float64) (q : Z) :
  finite_value x -> to_q15_elem x = Some q -> -32768 < q < 32767 ->
  to_q15_elem (SFopp x) = Some (- q).
Proof.
  intros Hx Hq Hin.
  destruct Hx as [Hv Hf].
  rewrite (to_q15_elem_spec x Hv Hf) in Hq. injection Hq as Hq.
  destruct (finite_value_opp x (conj Hv Hf)) as [Hv' Hf'].
  rewrite (to_q15_elem_spec (SFopp x) Hv' Hf'). f_equal.
  unfold Quantize in *.
  assert (Hr : round_half_even (to_Q x * 32768) = q).
  { rewrite <- Hq. symmetry. apply saturate_inside. rewrite Hq. exact Hin. }
  assert (Heq : (to_Q (SFopp x) * 32768 == - (to_Q x * 32768))%Q)
    by (rewrite to_Q_opp; ring).
  rewrite (round_half_even_comp _ _ Heq), round_half_even_opp, Hr.
  apply saturate_id. lia.
Qed.

(** The Q1.15 grid is fixed: a float64 that is exactly [k / 32768] for an
    int16 [k] quantizes to [k]. *)
Theorem to_q15_grid (x : float64) (k : Z) :
  finite_value x -> -32768 <= k <= 32767 ->
  (to_Q x == k # 32768)%Q ->
  to_q15_elem x = Some k.
Proof.
  intros [Hv Hf] Hk Hx.
  rewrite (to_q15_elem_spec x Hv Hf). f_equal.
  unfold Quantize.
  assert (Heq : (to_Q x * 32768 == inject_Z k)%Q).
  { rewrite Hx. unfold Qeq, Qmult, inject_Z. simpl. lia. }
  rewrite (round_half_even_comp _ _ Heq), round_half_even_Z.
  apply saturate_id, Hk.
Qed.

(** [to_q15] has a defined value, inside the int16 range, on every float64
    but NaN: the infinities clip to the bounds like any value out of range. *)
Theorem to_q15_defined (x : float64) :
  valid x = true -> x <> S754_nan ->
  exists q,
    to_q15_elem x = Some q
    /\ Golden.q15 q
    /\ (x = S754_infinity false -> q = 32767)
    /\ (x = S754_infinity true -> q = -32768).
Proof.
  intros Hv Hnan. destruct x as [s|s| |s m e].
  - exists (Quantize (to_Q (S754_zero s))).
    split; [apply to_q15_elem_spec; [exact Hv | reflexivity]|].
    split; [apply saturate_q15|]. split; discriminate.
  - exists (if s then -32768 else 32767).
    split; [destruct s; vm_compute; reflexivity|].
    split; [destruct s; unfold Golden.q15, Golden.Q15_MIN, Golden.Q15_MAX; lia|].
    split; intros H; injection H as ->; reflexivity.
  - contradiction.
  - exists (Quantize (to_Q (S754_finite s m e))).
    split; [apply to_q15_elem_spec; [exact Hv | reflexivity]|].
    split; [apply saturate_q15|]. split; discriminate.
Qed.

(** The scaling step never rounds: for a finite float64 [x], [x * 32768.0]
    is the float64 of exactly [32768 x], unless [|x| >= 2^1009], when it is
    the infinity of the sign of [x]. *)
Theorem scaling_exact (x : float64) :
  finite_value x ->
  (finite_value (mul x f32768)
   /\ (to_Q (mul x f32768) == to_Q x * 32768)%Q)
  \/ (exists s m e,
        x = S754_finite s m e
        /\ mul x f32768 = S754_infinity s
        /\ (inject_Z (2 ^ 1009) <= Qabs (to_Q x))%Q).
Proof.
  intros [Hv Hf]. destruct x as [s|s| |s m e]; try discriminate.
  - left. repeat split.
  - unfold valid, valid_binary in Hv.
    destruct (mul_32768_exact s m e Hv) as (k & m' & Hk & Hm' & Hcan & Hmul).
    destruct (Z.leb_spec (e + 15 - k) (emax - prec)) as [Hle|Hgt].
    + left. rewrite Hmul. split; [split|].
      * unfold valid, valid_binary, bounded. rewrite Hcan.
        apply Z.leb_le in Hle. rewrite Hle. reflexivity.
      * reflexivity.
      * apply to_Q_scaled; [lia | exact Hm'].
    + right. exists s, m, e. split; [reflexivity|]. split; [exact Hmul|].
      destruct (bounded_inv m e Hv) as [Hc He].
      unfold emax, prec in Hgt.
      assert (He957 : 957 <= e) by lia.
      pose proof (digits2_bounds m) as [Dlo _].
      assert (Hd : Z.pos (digits2_pos m) = 53) by lia.
      rewrite Hd in Dlo. change (2 ^ (53 - 1)) with (2 ^ 52) in Dlo.
      rewrite (Qabs_wd _ _ (to_Q_nonneg s m e ltac:(lia))).
      change (Qabs (inject_Z (cond_Zopp s (Z.pos m * 2 ^ e))))
        with (inject_Z (Z.abs (cond_Zopp s (Z.pos m * 2 ^ e)))).
      rewrite <- Zle_Qle.
      assert (Hpow : 2 ^ 957 <= 2 ^ e) by (apply Z.pow_le_mono_r; lia).
      assert (Hsplit : 2 ^ 1009 = 2 ^ 52 * 2 ^ 957)
        by (rewrite <- Z.pow_add_r by lia; reflexivity).
      assert (H52 : 0 < 2 ^ 52) by (apply Z.pow_pos_nonneg; lia).
      assert (H957 : 0 < 2 ^ 957) by (apply Z.pow_pos_nonneg; lia).
      assert (Hprod : 2 ^ 52 * 2 ^ 957 <= Z.pos m * 2 ^ e)
        by (apply Z.mul_le_mono_nonneg; lia).
      rewrite Hsplit.
      destruct s; cbn [cond_Zopp]; lia.
Qed.

End QuantizerMore.

(** ** The hex dumps *)

Section HexFacts.

Import Gen.

Lemma nibble_cases d :
  0 <= d < 16 ->
  In d [0; 1; 2; 3; 4; 5; 6; 7; 8; 9; 10; 11; 12; 13; 14; 15].
Proof. intros H. simpl. lia. Qed.

Lemma hex_digit_lower d : 0 <= d < 16 -> is_lower_hex (hex_digit d) = true.
Proof.
  intros H. apply nibble_cases in H. simpl in H.
  repeat (destruct H as [<-|H]; [vm_compute; reflexivity|]). contradiction.
Qed.

Lemma unhex_hex_digit d : 0 <= d < 16 -> unhex_digit (hex_digit d) = d.
Proof.
  intros H. apply nibble_cases in H. simpl in H.
  repeat (destruct H as [<-|H]; [vm_compute; reflexivity|]). contradiction.
Qed.

(** The four nibbles of a 16-bit word. *)
Lemma nibbles u :
  0 <= u < 65536 ->
  0 <= Z.shiftr u 12 < 16
  /\ 0 <= Z.land (Z.shiftr u 8) 15 < 16
  /\ 0 <= Z.land (Z.shiftr u 4) 15 < 16
  /\ 0 <= Z.land u 15 < 16
  /\ ((Z.shiftr u 12 * 16 + Z.land (Z.shiftr u 8) 15) * 16
      + Z.land (Z.shiftr u 4) 15) * 16 + Z.land u 15 = u.
Proof.
  intros Hu.
  change 15 with (Z.ones 4). rewrite !Z.land_ones by lia.
  rewrite !Z.shiftr_div_pow2 by lia.
  change (2 ^ 12) with 4096. change (2 ^ 8) with 256. change (2 ^ 4) with 16.
  pose proof (Z.div_mod u 16 ltac:(lia)) as H0.
  pose proof (Z.mod_pos_bound u 16 ltac:(lia)) as B0.
  pose proof (Z.div_mod (u / 16) 16 ltac:(lia)) as H1.
  pose proof (Z.mod_pos_bound (u / 16) 16 ltac:(lia)) as B1.
  pose proof (Z.div_mod (u / 256) 16 ltac:(lia)) as H2.
  pose proof (Z.mod_pos_bound (u / 256) 16 ltac:(lia)) as B2.
  assert (E1 : u / 16 / 16 = u / 256) by (rewrite Z.div_div by lia; reflexivity).
  assert (E2 : u / 256 / 16 = u / 4096) by (rewrite Z.div_div by lia; reflexivity).
  rewrite E1 in H1. rewrite E2 in H2.
  lia.
Qed.

Lemma land_65535 v : Z.land v 65535 = v mod 65536.
Proof. change 65535 with (Z.ones 16). apply Z.land_ones. lia. Qed.

(** Every dumped line is four lowercase hexadecimal digits and a newline,
    for any integer. *)
Theorem hex_line_format (v : Z) :
  exists d3 d2 d1 d0,
    hex_line v = String d3 (String d2 (String d1 (String d0 newline)))
    /\ is_lower_hex d3 = true /\ is_lower_hex d2 = true
    /\ is_lower_hex d1 = true /\ is_lower_hex d0 = true.
Proof.
  unfold hex_line. rewrite land_65535.
  pose proof (Z.mod_pos_bound v 65536 ltac:(lia)) as Hu.
  destruct (nibbles (v mod 65536) Hu) as (N3 & N2 & N1 & N0 & _).
  do 4 eexists. split; [reflexivity|].
  repeat split; apply hex_digit_lower; assumption.
Qed.

(** Reading a dumped line back as four hexadecimal digits gives the low 16
    bits of the value, its two's-complement encoding. *)
Lemma unhex_hex_line v : unhex_line (hex_line v) = Some (v mod 65536).
Proof.
  unfold hex_line, unhex_line. rewrite land_65535.
  pose proof (Z.mod_pos_bound v 65536 ltac:(lia)) as Hu.
  destruct (nibbles (v mod 65536) Hu) as (N3 & N2 & N1 & N0 & Hsum).
  rewrite !unhex_hex_digit by assumption. rewrite Hsum. reflexivity.
Qed.

(** Two values are dumped as the same line exactly when they agree modulo
    [2^16]. *)
Lemma hex_line_same_iff (v1 v2 : Z) :
  hex_line v1 = hex_line v2 <-> v1 mod 65536 = v2 mod 65536.
Proof.
  split; intros H.
  - pose proof (unhex_hex_line v1) as H1. rewrite H, unhex_hex_line in H1.
    congruence.
  - unfold hex_line. rewrite !land_65535, H. reflexivity.
Qed.

(** Distinct Q1.15 values are dumped as distinct lines. *)
Theorem hex_line_injective (v1 v2 : Z) :
  Golden.q15 v1 -> Golden.q15 v2 -> hex_line v1 = hex_line v2 -> v1 = v2.
Proof.
  unfold Golden.q15, Golden.Q15_MIN, Golden.Q15_MAX. intros Hq1 Hq2 H.
  apply hex_line_same_iff in H.
  pose proof (Z.div_mod v1 65536 ltac:(lia)) as D1.
  pose proof (Z.div_mod v2 65536 ltac:(lia)) as D2.
  pose proof (Z.mod_pos_bound v1 65536 ltac:(lia)) as B1.
  lia.
Qed.

(** *** Layout of a dump *)

Lemma append_empty_r s : (s ++ "")%string = s.
Proof. induction s as [|c s IH]; simpl; congruence. Qed.

Lemma concat_empty_cons x xs :
  String.concat "" (x :: xs) = (x ++ String.concat "" xs)%string.
Proof.
  destruct xs as [|y ys]; simpl.
  - symmetry. apply append_empty_r.
  - reflexivity.
Qed.

Lemma append_length s t :
  String.length (s ++ t) = (String.length s + String.length t)%nat.
Proof. induction s as [|c s IH]; simpl; congruence. Qed.

Lemma substring_append_skip s t n m :
  substring (String.length s + n) m (s ++ t) = substring n m t.
Proof. induction s as [|c s IH]; simpl; [reflexivity | exact IH]. Qed.

Lemma substring_append_take s t :
  substring 0 (String.length s) (s ++ t) = s.
Proof.
  induction s as [|c s IH]; simpl.
  - destruct t; reflexivity.
  - rewrite IH. reflexivity.
Qed.

Lemma hex_line_length v : String.length (hex_line v) = 5%nat.
Proof. reflexivity. Qed.

(** In the concatenation of lines of five characters, line [k] is at offset
    [5 k]. *)
Lemma concat_lines_nth (vs : list Z) : forall k,
  (k < length vs)%nat ->
  substring (5 * k) 5 (String.concat "" (map hex_line vs))
  = hex_line (nth k vs 0).
Proof.
  induction vs as [|v vs IH]; intros k Hk; simpl in Hk; [lia|].
  cbn [map]. rewrite concat_empty_cons.
  destruct k as [|k].
  - change (5 * 0)%nat with 0%nat. cbn [nth].
    rewrite <- (hex_line_length v) at 1. apply substring_append_take.
  - replace (5 * S k)%nat with (String.length (hex_line v) + 5 * k)%nat
      by (rewrite hex_line_length; lia).
    rewrite substring_append_skip. cbn [nth]. apply IH. lia.
Qed.

Lemma concat_lines_length (vs : list Z) :
  String.length (String.concat "" (map hex_line vs)) = (5 * length vs)%nat.
Proof.
  induction vs as [|v vs IH]; [reflexivity|].
  cbn [map]. rewrite concat_empty_cons, append_length, IH, hex_line_length.
  simpl. lia.
Qed.

(** The values of a dump in the order of the two loops. *)
Lemma hex_dump_values (M : matrix Z) r c :
  hex_dump M r c
  = String.concat ""
      (map hex_line
           (flat_map (fun i => map (fun j => at2 M i j) (seq 0 c)) (seq 0 r))).
Proof.
  unfold hex_dump. f_equal.
  induction (seq 0 r) as [|i l IH]; [reflexivity|].
  simpl. rewrite map_app, map_map, IH. reflexivity.
Qed.

Lemma loops_length (g : nat -> nat -> Z) c r : forall s,
  length (flat_map (fun i => map (fun j => g i j) (seq 0 c)) (seq s r))
  = (r * c)%nat.
Proof.
  induction r as [|r IH]; intros s; [reflexivity|].
  simpl. rewrite length_app, length_map, length_seq, IH. reflexivity.
Qed.

Lemma loops_nth (g : nat -> nat -> Z) c r : forall s i j,
  (i < r)%nat -> (j < c)%nat ->
  nth (i * c + j)
      (flat_map (fun i => map (fun j => g i j) (seq 0 c)) (seq s r)) 0
  = g (s + i)%nat j.
Proof.
  induction r as [|r IH]; intros s i j Hi Hj; [lia|].
  cbn [seq flat_map].
  destruct i as [|i].
  - change (0 * c + j)%nat with j.
    rewrite app_nth1 by (rewrite length_map, length_seq; exact Hj).
    rewrite (nth_map_in (fun j => g s j) (seq 0 c) j 0%nat 0)
      by (rewrite length_seq; exact Hj).
    rewrite seq_nth by exact Hj. rewrite Nat.add_0_r. reflexivity.
  - replace (S i * c + j)%nat
      with (length (map (fun j => g s j) (seq 0 c)) + (i * c + j))%nat
      by (rewrite length_map, length_seq; simpl; lia).
    rewrite app_nth2_plus.
    rewrite (IH (S s) i j) by lia.
    f_equal. lia.
Qed.

(** A dump is laid out in row-major order, one line of five characters per
    element: the line of [M[i, j]] is at offset [5 (i c + j)], and the dump
    has [5 r c] characters. *)
Theorem hex_dump_layout (M : matrix Z) (r c i j : nat) :
  has_shape r c M -> (i < r)%nat -> (j < c)%nat ->
  substring (5 * (i * c + j)) 5 (hex_dump M r c) = hex_line (at2 M i j)
  /\ String.length (hex_dump M r c) = (5 * (r * c))%nat.
Proof.
  intros _ Hi Hj. rewrite hex_dump_values. split.
  - rewrite concat_lines_nth.
    + rewrite (loops_nth (at2 M) c r 0 i j Hi Hj). reflexivity.
    + rewrite loops_length. nia.
  - rewrite concat_lines_length, loops_length. reflexivity.
Qed.

End HexFacts.

(** ** The run: files, output and completion *)

Section WorldFacts.

Import Gen.




Lemma write_file_stdout path content w :
  stdout (write_file path content w) = stdout w.
Proof. reflexivity. Qed.


Lemma append_assoc (a b c : string) :
  ((a ++ b) ++ c)%string = (a ++ (b ++ c))%string.
Proof. induction a as [|x a IH]; simpl; congruence. Qed.


End WorldFacts.

Section RunMore.

Import Float64 Gen.

Context {RS : RandomSource}.

(** The options of an accepted command line. *)
Lemma parse_args_fields cl args :
  parse_args cl = Some args ->
  cl_N cl = Some (N args)
  /\ seed args = match cl_seed cl with Some s => s | None => 12648430 end
  /\ dump_hex args = cl_dump_hex cl
  /\ outdir args = match cl_outdir cl with Some d => d | None => "."%string end.
Proof.
  unfold parse_args. destruct (cl_N cl) as [n|]; [|discriminate].
  destruct (existsb (Z.eqb n) N_choices); [|discriminate].
  intros H. injection H as <-. repeat split.
Qed.

(** The world a completed run leaves. *)
Lemma main_done_world cl w v w' :
  main cl w = (Done v, w') ->
  exists args,
    parse_args cl = Some args
    /\ w' = if dump_hex args
            then dump_all args v (print (summary (N args)) w)
            else print (summary (N args)) w.
Proof.
  unfold main. intros H.
  destruct (parse_args cl) as [args|]; [|discriminate].
  destruct (default_rng (seed args)) as [rng|]; [|discriminate].
  exists args. split; [reflexivity|].
  destruct (uniform (Z.to_nat (N args)) 4 rng) as [A rng1].
  destruct (uniform 4 (Z.to_nat (N args)) rng1) as [B rng2].
  destruct (to_q15 A) as [Aq|]; [|discriminate].
  destruct (to_q15 B) as [Bq|]; [|discriminate].
  injection H as <- <-. reflexivity.
Qed.


(** A completed run appends exactly one line to standard output, the summary
    with N and the three shapes, and without [--dump_hex] writes no file. *)
Theorem main_prints_summary (cl : cmdline) (w w' : world) (v : vectors) (n : Z) :
  main cl w = (Done v, w') -> cl_N cl = Some n ->
  stdout w' = stdout w ++ [summary n]
  /\ (cl_dump_hex cl = false -> files w' = files w).
Proof.
  intros H HN.
  destruct (main_done_world cl w v w' H) as (args & Hargs & Hw').
  destruct (parse_args_fields cl args Hargs) as (HN' & _ & Hd & _).
  assert (Hn : N args = n) by congruence.
  rewrite Hn, Hd in Hw'. subst w'.
  destruct (cl_dump_hex cl).
  - split; [reflexivity | discriminate].
  - split; [reflexivity | reflexivity].
Qed.


End RunMore.

Section RunCompletes.

Import Float64 Gen.

Context {RS : RandomSource}.

Lemma unit_range_finite x : unit_range x -> finite_value x.
Proof. intros (Hv & Hf & _). split; assumption. Qed.

Lemma draw_row_unit c : forall g,
  unit_draws RS -> Forall unit_range (fst (draw_row c g)).
Proof.
  induction c as [|c IH]; intros g Hu; simpl; [constructor|].
  pose proof (Hu g) as Hx.
  destruct (draw_uniform g) as [x g1].
  specialize (IH g1 Hu). destruct (draw_row c g1) as [xs g2].
  constructor; assumption.
Qed.

Lemma uniform_unit r c : forall g,
  unit_draws RS -> all_elems unit_range (fst (uniform r c g)).
Proof.
  induction r as [|r IH]; intros g Hu; simpl; [constructor|].
  pose proof (draw_row_unit c g Hu) as Hrow.
  destruct (draw_row c g) as [row g1].
  specialize (IH g1 Hu). destruct (uniform r c g1) as [rest g2].
  constructor; assumption.
Qed.

Lemma to_q15_total (X : matrix float64) :
  all_elems finite_value X ->
  to_q15 X = Some (map (map (fun x => Quantize (to_Q x))) X).
Proof.
  intros HX. rewrite to_q15_traverse. apply traverse_total.
  eapply Forall_impl; [|exact HX].
  intros row Hrow. apply traverse_total.
  eapply Forall_impl; [|exact Hrow].
  intros x [Hv Hf]. apply to_q15_elem_spec; assumption.
Qed.

Lemma all_elems_impl {T} (P Q : T -> Prop) (M : matrix T) :
  (forall x, P x -> Q x) -> all_elems P M -> all_elems Q M.
Proof.
  intros H HM. unfold all_elems in *.
  eapply Forall_impl; [|exact HM].
  intros row Hrow. eapply Forall_impl; [|exact Hrow]. exact H.
Qed.

(** The arrays of a completed run have the shapes (N,4), (4,N) and (N,N),
    for an N among 4, 8 and 16. *)
Theorem main_shapes (cl : cmdline) (w w' : world) (v : vectors) (n : Z) :
  main cl w = (Done v, w') -> cl_N cl = Some n ->
  In n N_choices
  /\ has_shape (Z.to_nat n) 4 (A_q v)
  /\ has_shape 4 (Z.to_nat n) (B_q v)
  /\ has_shape (Z.to_nat n) (Z.to_nat n) (C_q v).
Proof.
  intros H HN.
  destruct (main_done cl w v w' H) as (args & rng & Hargs & _ & HA & HB & HC).
  destruct (parse_args_some cl args Hargs) as [HN' Hin].
  assert (Hn : N args = n) by congruence.
  rewrite Hn in *.
  assert (SA : has_shape (Z.to_nat n) 4 (A_q v))
    by (exact (to_q15_shape _ _ _ _ (uniform_shape _ _ _) HA)).
  assert (SB : has_shape 4 (Z.to_nat n) (B_q v))
    by (exact (to_q15_shape _ _ _ _ (uniform_shape _ _ _) HB)).
  repeat split; try assumption; try apply SA; try apply SB.
  - rewrite HC. apply (golden_elementwise (Z.to_nat n) _ _ SA SB).
  - rewrite HC. apply (golden_elementwise (Z.to_nat n) _ _ SA SB).
Qed.

(** With a supported N, a seed the random source accepts and draws in
    [-1, 1), the run completes: no conversion is undefined, A and B are the
    quantizer rule applied to the drawn arrays (B drawn after A from the same
    generator) and C is the golden result of A and B. *)
Theorem main_completes (cl : cmdline) (w : world) (n : Z) (g : rng_state) :
  cl_N cl = Some n -> In n N_choices ->
  default_rng (match cl_seed cl with Some s => s | None => 12648430 end) = Some g ->
  unit_draws RS ->
  exists v w',
    main cl w = (Done v, w')
    /\ A_q v = map (map (fun x => Quantize (to_Q x)))
                   (fst (uniform (Z.to_nat n) 4 g))
    /\ B_q v = map (map (fun x => Quantize (to_Q x)))
                   (fst (uniform 4 (Z.to_nat n)
                                 (snd (uniform (Z.to_nat n) 4 g))))
    /\ C_q v = Golden.golden (A_q v) (B_q v).
Proof.
  intros HN Hin Hg Hu.
  assert (Hex : existsb (Z.eqb n) N_choices = true).
  { apply existsb_exists. exists n. split; [exact Hin | apply Z.eqb_refl]. }
  unfold main, parse_args. rewrite HN, Hex. cbn [seed N dump_hex outdir].
  rewrite Hg.
  pose proof (uniform_unit (Z.to_nat n) 4 g Hu) as UA.
  destruct (uniform (Z.to_nat n) 4 g) as [A g1]. cbn [fst snd] in *.
  pose proof (uniform_unit 4 (Z.to_nat n) g1 Hu) as UB.
  destruct (uniform 4 (Z.to_nat n) g1) as [B g2]. cbn [fst snd] in *.
  rewrite (to_q15_total A (all_elems_impl _ _ A unit_range_finite UA)).
  rewrite (to_q15_total B (all_elems_impl _ _ B unit_range_finite UB)).
  do 2 eexists. split; [reflexivity|]. cbn [A_q B_q C_q]. repeat split.
Qed.

End RunCompletes.

(** ** The further properties at concrete inputs *)

Section MoreWitnesses.

Import Float64 Gen Samples.

Lemma shape_A1 : has_shape 1 4 A1.
Proof. split; [reflexivity | repeat constructor]. Defined.

Lemma shape_B1 : has_shape 4 1 B1.
Proof. split; [reflexivity | repeat constructor]. Defined.

Lemma q15_A1 : all_elems Golden.q15 A1.
Proof.
  repeat constructor; unfold Golden.Q15_MIN, Golden.Q15_MAX; lia.
Defined.

Lemma q15_B1 : all_elems Golden.q15 B1.
Proof.
  repeat constructor; unfold Golden.Q15_MIN, Golden.Q15_MAX; lia.
Defined.

Lemma golden_saturates_low_witness :
  Z.shiftr (Golden.mac4 A1 B1 0 0 + 2 ^ 14) 15 < -32768
  /\ at2 (Golden.golden A1 B1) 0 0 = -32768.
Proof.
  assert (H : Z.shiftr (Golden.mac4 A1 B1 0 0 + 2 ^ 14) 15 < -32768)
    by (vm_compute; reflexivity).
  split; [exact H|].
  apply (golden_saturates_low 1 A1 B1 0 0
           shape_A1 shape_B1 q15_A1 q15_B1); [lia | lia | exact H].
Defined.

Lemma golden_rounds_half_up_witness :
  at2 (Golden.golden A2 B2) 1 1 = 7
  /\ at2 (Golden.golden A2 B2) 1 1 * 2 ^ 15 - 2 ^ 14 <= Golden.mac4 A2 B2 1 1
  /\ Golden.mac4 A2 B2 1 1 < at2 (Golden.golden A2 B2) 1 1 * 2 ^ 15 + 2 ^ 14.
Proof.
  split; [vm_compute; reflexivity|].
  apply (golden_rounds_half_up 2 A2 B2 1 1
           shape_A2 shape_B2 q15_A2 q15_B2); [lia | lia |].
  split; vm_compute; reflexivity.
Defined.

Lemma golden_monotone_witness :
  Golden.mac4 A1 B1 0 0 <= Golden.mac4 A2 B2 1 1
  /\ at2 (Golden.golden A1 B1) 0 0 <= at2 (Golden.golden A2 B2) 1 1.
Proof.
  split; [vm_compute; discriminate|].
  apply (golden_monotone 1 2 A1 B1 A2 B2 0 0 1 1
           shape_A1 shape_B1 q15_A1 q15_B1 shape_A2 shape_B2 q15_A2 q15_B2);
    try lia.
  vm_compute. discriminate.
Defined.

Lemma finite_half : finite_value f_half.
Proof. split; reflexivity. Defined.

Lemma finite_one : finite_value f_one.
Proof. split; reflexivity. Defined.

Lemma to_q15_monotone_witness :
  exists qx qy,
    to_q15_elem f_half = Some qx /\ to_q15_elem f_one = Some qy /\ qx <= qy.
Proof.
  apply (to_q15_monotone f_half f_one finite_half finite_one).
  vm_compute. discriminate.
Defined.

Lemma to_q15_odd_witness :
  to_q15_elem (SFopp f_half) = Some (- 16384).
Proof.
  apply (to_q15_odd f_half 16384 finite_half);
    [vm_compute; reflexivity | lia].
Defined.

Lemma to_q15_grid_witness : to_q15_elem f_half = Some 16384.
Proof.
  apply (to_q15_grid f_half 16384 finite_half); [lia | vm_compute; reflexivity].
Defined.

Lemma to_q15_defined_witness :
  exists q,
    to_q15_elem (S754_infinity false) = Some q
    /\ Golden.q15 q
    /\ (S754_infinity false = S754_infinity false -> q = 32767)
    /\ (S754_infinity false = S754_infinity true -> q = -32768).
Proof.
  apply (to_q15_defined (S754_infinity false)); [reflexivity | discriminate].
Defined.

Lemma scaling_exact_witness :
  (finite_value (mul f_half f32768)
   /\ (to_Q (mul f_half f32768) == to_Q f_half * 32768)%Q)
  \/ (exists s m e,
        f_half = S754_finite s m e
        /\ mul f_half f32768 = S754_infinity s
        /\ (inject_Z (2 ^ 1009) <= Qabs (to_Q f_half))%Q).
Proof. apply (scaling_exact f_half finite_half). Defined.

Lemma hex_line_injective_witness :
  hex_line (-1) = "ffff
"%string /\ -1 = -1.
Proof.
  split; [reflexivity|].
  apply (hex_line_injective (-1) (-1));
    try (unfold Golden.q15, Golden.Q15_MIN, Golden.Q15_MAX; lia).
  reflexivity.
Defined.

Lemma hex_dump_layout_witness :
  substring (5 * (1 * 4 + 2)) 5 (hex_dump A2 2 4) = hex_line (at2 A2 1 2)
  /\ String.length (hex_dump A2 2 4) = (5 * (2 * 4))%nat.
Proof.
  apply (hex_dump_layout A2 2 4 1 2 shape_A2); lia.
Defined.

(** The sample source keeps the contract of [uniform(-1.0, 1.0)]. *)
Lemma lcg_unit_draws : unit_draws lcg_source.
Proof.
  intros g. cbn [draw_uniform lcg_source]. unfold lcg_draw. cbn [fst].
  set (s := Z.testbit (lcg_next g) 63).
  set (k := (lcg_next g / 2 ^ 11) mod 2 ^ 52).
  assert (Hk : 0 <= k < 2 ^ 52) by (apply Z.mod_pos_bound; lia).
  change (2 ^ 52) with 4503599627370496 in *.
  set (m := Z.to_pos (4503599627370496 + k)).
  assert (Hm : Z.pos m = 4503599627370496 + k) by (apply Z2Pos.id; lia).
  assert (Hd : Z.pos (digits2_pos m) = 53).
  { apply digits2_unique. rewrite Hm.
    change (2 ^ (53 - 1)) with 4503599627370496.
    change (2 ^ 53) with 9007199254740992. lia. }
  assert (Hq : (to_Q (S754_finite s m (-53))
                == cond_Zopp s (Z.pos m) # 9007199254740992)%Q)
    by (apply (to_Q_neg s m (-53)); lia).
  repeat split.
  - unfold valid, valid_binary, bounded, canonical_mantissa. rewrite Hd.
    reflexivity.
  - rewrite Hq. unfold Qle. cbn [Qnum Qden]. destruct s; cbn [cond_Zopp]; lia.
  - rewrite Hq. unfold Qlt. cbn [Qnum Qden]. destruct s; cbn [cond_Zopp]; lia.
Qed.


Lemma main_prints_summary_witness :
  exists v w',
    @main lcg_source cl4' empty_world = (Done v, w')
    /\ stdout w' = ["N=4  A:(4, 4)  B:(4, 4)  C:(4, 4)"%string]
    /\ (cl_dump_hex cl4' = false -> files w' = []).
Proof.
  destruct (@main lcg_source cl4' empty_world) as [o w'] eqn:Hrun.
  destruct o as [| | |v]; try (vm_compute in Hrun; discriminate Hrun).
  exists v, w'. split; [reflexivity|].
  exact (@main_prints_summary lcg_source cl4' empty_world w' v 4 Hrun eq_refl).
Defined.


Lemma main_shapes_witness :
  exists v w',
    @main lcg_source cl4 empty_world = (Done v, w')
    /\ In 4 N_choices
    /\ has_shape 4 4 (A_q v) /\ has_shape 4 4 (B_q v) /\ has_shape 4 4 (C_q v).
Proof.
  destruct (@main lcg_source cl4 empty_world) as [o w'] eqn:Hrun.
  destruct o as [| | |v]; try (vm_compute in Hrun; discriminate Hrun).
  exists v, w'. split; [reflexivity|].
  exact (@main_shapes lcg_source cl4 empty_world w' v 4 Hrun eq_refl).
Defined.

Lemma main_completes_witness :
  exists v w',
    @main lcg_source cl4 empty_world = (Done v, w')
    /\ A_q v = map (map (fun x => Quantize (to_Q x)))
                   (fst (@uniform lcg_source 4 4 7))
    /\ B_q v = map (map (fun x => Quantize (to_Q x)))
                   (fst (@uniform lcg_source 4 4
                           (snd (@uniform lcg_source 4 4 7))))
    /\ C_q v = Golden.golden (A_q v) (B_q v).
Proof.
  apply (@main_completes lcg_source cl4 empty_world 4 7);
    [reflexivity | simpl; tauto | reflexivity | exact lcg_unit_draws].
Defined.

End MoreWitnesses.
